(** * Realtime synchronisation core of the wiki client

    A shallow embedding of the socket event handlers registered by
    [WebsocketProvider.createConnection] (app/components/WebsocketProvider.tsx)
    and of the guarded transitions [resolve] / [unresolve] of the server-side
    [Comment] model, followed by the properties the design document states
    about them.

    Entity stores are finite maps from identifier to record, handlers are
    computations in a state-and-exception monad over the stores, the
    notice list, the socket reference and the log of requests sent to the
    authoritative source.  A handler is modelled as running to completion:
    interleaving of two handlers at an [await] is outside this model. *)

From stdpp Require Import gmap strings list fin_maps.

Local Open Scope string_scope.
Local Open Scope list_scope.

(** ** JavaScript conventions *)

(** A [string | null | undefined] in a boolean position: only a non-empty
    string is truthy. *)
Definition truthy (v : option string) : bool :=
  match v with
  | Some s => negb (bool_decide (s = ""))
  | None => false
  end.

(** ** Errors and completions *)

Inductive ErrorClass :=
  | AuthorizationError
  | NotFoundError
  | ValidationError
  | GenericError.

#[global] Instance ErrorClass_eq_dec : EqDecision ErrorClass.
Proof. solve_decision. Defined.

Record Error := { errorClass : ErrorClass; message : string }.

#[global] Instance Error_eq_dec : EqDecision Error.
Proof. solve_decision. Defined.

(** [err instanceof C] *)
Definition instanceof (err : Error) (C : ErrorClass) : bool :=
  bool_decide (errorClass err = C).

(** How a statement completes: normally with a value, or by a [throw]. *)
Inductive Completion (A : Type) :=
  | Normal (a : A)
  | Throw (e : Error).
Arguments Normal {A} a.
Arguments Throw {A} e.

(** State-and-exception monad; the state survives a [throw]. *)
Definition M (S A : Type) : Type := S → Completion A * S.

#[global] Instance M_ret {S} : MRet (M S) := λ A a s, (Normal a, s).

#[global] Instance M_bind {S} : MBind (M S) := λ A B f m s,
  match m s with
  | (Normal a, s') => f a s'
  | (Throw e, s') => (Throw e, s')
  end.

Definition throw {S A} (e : Error) : M S A := λ s, (Throw e, s).

(** [try { body } catch (err) { handler err }] *)
Definition try_catch {S A} (body : M S A) (handler : Error → M S A) : M S A :=
  λ s, match body s with
       | (Normal a, s') => (Normal a, s')
       | (Throw e, s') => handler e s'
       end.

Definition gets {S A} (f : S → A) : M S A := λ s, (Normal (f s), s).
Definition modify {S} (f : S → S) : M S unit := λ s, (Normal tt, f s).

(** What a loop body or a [try] block tells its surroundings: go on (with
    the values it assigned), or [return] from the enclosing handler. *)
Inductive Control (A : Type) :=
  | Proceed (a : A)
  | Return.
Arguments Proceed {A} a.
Arguments Return {A}.

(** [for (const x of xs) body], where the body hands the updated loop
    variables to the next iteration and a [return] leaves the loop. *)
Fixpoint for_of {S A B} (xs : list A) (body : A → B → M S (Control B)) (b : B)
  : M S (Control B) :=
  match xs with
  | [] => mret (Proceed b)
  | x :: xs' =>
      c ← body x b;
      match c with
      | Proceed b' => for_of xs' body b'
      | Return => mret Return
      end
  end.

(** [xs.forEach(body)] *)
Fixpoint for_each {S A} (xs : list A) (body : A → M S unit) : M S unit :=
  match xs with
  | [] => mret tt
  | x :: xs' => body x;; for_each xs' body
  end.

(** ** Entity records *)

(** Modelled from the spec: the client model classes ([~/models]) are not
    part of the excerpt.  Every record has a stable identifier, and
    [updateData] merges an incoming partial record into a held one: the
    fields the incoming record carries overwrite, the others stay. *)
Class Model (A : Type) := {
  model_id : A → string;
  updateData : A → A → A;
}.

(** Field by field: a field present in the incoming record wins. *)
Definition incoming {A} (new old : option A) : option A :=
  match new with
  | Some a => Some a
  | None => old
  end.

(** The fields of a cached document that the handlers read or write. *)
Module Document.
Record t := {
  id : string;
  title : string;
  updatedAt : string;
  collectionId : option string;
  publishedAt : option string;
  deletedAt : option string;
  (** identifiers of [document.childDocuments] *)
  childDocuments : list string;
}.

Definition set_collectionId (v : option string) (d : t) : t :=
  {| id := id d; title := title d; updatedAt := updatedAt d;
     collectionId := v; publishedAt := publishedAt d;
     deletedAt := deletedAt d; childDocuments := childDocuments d |}.

Definition set_deletedAt (v : option string) (d : t) : t :=
  {| id := id d; title := title d; updatedAt := updatedAt d;
     collectionId := collectionId d; publishedAt := publishedAt d;
     deletedAt := v; childDocuments := childDocuments d |}.
End Document.

(** Documents enter the store only as full records returned by a fetch:
    every field of the incoming record overwrites. *)
#[global] Instance Document_model : Model Document.t :=
  {| model_id := Document.id; updateData := λ new _, new |}.

(** An entry of a collection's document list. *)
Record NavigationNode := { nodeId : string; nodeTitle : string }.

(** A cached collection, also the shape of a partial collection in an
    event: a field that is [None] is absent. *)
Module Collection.
Record t := {
  id : string;
  updatedAt : option string;
  (** the denormalised document list; [None] while it is not loaded *)
  documents : option (list NavigationNode);
}.

Definition set_documents (v : option (list NavigationNode)) (c : t) : t :=
  {| id := id c; updatedAt := updatedAt c; documents := v |}.
End Collection.

#[global] Instance Collection_model : Model Collection.t :=
  {| model_id := Collection.id;
     updateData := λ new old,
       {| Collection.id := Collection.id old;
          Collection.updatedAt :=
            incoming (Collection.updatedAt new) (Collection.updatedAt old);
          Collection.documents :=
            incoming (Collection.documents new) (Collection.documents old) |} |}.

(** A user's membership in a collection. *)
Module Membership.
Record t := { id : string; userId : string; collectionId : string }.
End Membership.

(** A user's membership on a document. *)
Module UserMembership.
Record t := { id : string; userId : string; documentId : string }.
End UserMembership.

(** A cached authorisation result, keyed by the identifier of the entity
    it is about. *)
Module Policy.
Record Abilities := { read : bool }.
Record t := { id : string; abilities : Abilities }.
End Policy.

(** The remaining entity kinds (comments, groups, pins, stars,
    subscriptions) are only upserted and removed by the handlers, which read
    none of their fields: they are kept as plain objects. *)
Inductive Json :=
  | JNull
  | JBool (b : bool)
  | JNum (n : Z)
  | JStr (s : string).

Module Entity.
Record t := { id : string; fields : gmap string Json }.
End Entity.

#[global] Instance Entity_model : Model Entity.t :=
  {| model_id := Entity.id;
     updateData := λ new old,
       {| Entity.id := Entity.id old;
          Entity.fields := Entity.fields new ∪ Entity.fields old |} |}.

(** ** The entity store contract *)

Module Store.
Section Store.
Context {A : Type} `{Model A}.

(** Modelled from the spec: the Entity Store (the [~/stores] classes are
    not part of the excerpt) is an indexed mapping from identifier to record
    that never holds two records under one identifier.  [get(id)] yields
    the record or nothing. *)
Definition get (id : string) (s : gmap string A) : option A := s !! id.

(** Modelled from the spec: [add(partialRecord)] is an upsert keyed by the
    identifier; on an identifier already held, the fields present in the
    incoming record overwrite and the others are left untouched. *)
Definition add (p : A) (s : gmap string A) : gmap string A :=
  <[model_id p := match s !! model_id p with
                 | Some old => updateData p old
                 | None => p
                 end]> s.

(** Modelled from the spec: [remove(id)] drops the record held under the
    identifier, if any. *)
Definition remove (id : string) (s : gmap string A) : gmap string A :=
  delete id s.

(** Modelled from the spec: [removeAll(predicateFields)] drops every record
    whose fields match; [matches] is the comparison with the given fields. *)
Definition removeAll (matches : A → bool) (s : gmap string A) : gmap string A :=
  filter (λ kv, matches kv.2 = false) s.

End Store.
End Store.

(** ** Everything a handler can read or change *)

Record Socket := { authenticated : bool; disconnected : bool }.

Definition set_authenticated (v : bool) (s : Socket) : Socket :=
  {| authenticated := v; disconnected := disconnected s |}.

(** Notices raised through [toast]. *)
Inductive Toast :=
  | ToastError (msg : string)
  | ToastSuccess (msg description : string).

(** Requests sent to the authoritative source by the stores' fetches. *)
Inductive Request :=
  | DocumentsInfo (id : string)
  | CollectionsDocuments (id : string).

Record World := {
  documents : gmap string Document.t;
  collections : gmap string Collection.t;
  memberships : gmap string Membership.t;
  userMemberships : gmap string UserMembership.t;
  policies : gmap string Policy.t;
  comments : gmap string Entity.t;
  groups : gmap string Entity.t;
  pins : gmap string Entity.t;
  stars : gmap string Entity.t;
  subscriptions : gmap string Entity.t;
  (** [this.socket] of the provider *)
  socket : option Socket;
  toasts : list Toast;
  requests : list Request;
}.

Definition set_documents (f : gmap string Document.t → gmap string Document.t)
  (w : World) : World :=
  {| documents := f (documents w); collections := collections w;
     memberships := memberships w; userMemberships := userMemberships w;
     policies := policies w; comments := comments w; groups := groups w;
     pins := pins w; stars := stars w; subscriptions := subscriptions w;
     socket := socket w; toasts := toasts w; requests := requests w |}.

Definition set_collections
  (f : gmap string Collection.t → gmap string Collection.t) (w : World) : World :=
  {| documents := documents w; collections := f (collections w);
     memberships := memberships w; userMemberships := userMemberships w;
     policies := policies w; comments := comments w; groups := groups w;
     pins := pins w; stars := stars w; subscriptions := subscriptions w;
     socket := socket w; toasts := toasts w; requests := requests w |}.

Definition set_memberships
  (f : gmap string Membership.t → gmap string Membership.t) (w : World) : World :=
  {| documents := documents w; collections := collections w;
     memberships := f (memberships w); userMemberships := userMemberships w;
     policies := policies w; comments := comments w; groups := groups w;
     pins := pins w; stars := stars w; subscriptions := subscriptions w;
     socket := socket w; toasts := toasts w; requests := requests w |}.

Definition set_userMemberships
  (f : gmap string UserMembership.t → gmap string UserMembership.t)
  (w : World) : World :=
  {| documents := documents w; collections := collections w;
     memberships := memberships w; userMemberships := f (userMemberships w);
     policies := policies w; comments := comments w; groups := groups w;
     pins := pins w; stars := stars w; subscriptions := subscriptions w;
     socket := socket w; toasts := toasts w; requests := requests w |}.

Definition set_policies (f : gmap string Policy.t → gmap string Policy.t)
  (w : World) : World :=
  {| documents := documents w; collections := collections w;
     memberships := memberships w; userMemberships := userMemberships w;
     policies := f (policies w); comments := comments w; groups := groups w;
     pins := pins w; stars := stars w; subscriptions := subscriptions w;
     socket := socket w; toasts := toasts w; requests := requests w |}.

Definition set_comments (f : gmap string Entity.t → gmap string Entity.t)
  (w : World) : World :=
  {| documents := documents w; collections := collections w;
     memberships := memberships w; userMemberships := userMemberships w;
     policies := policies w; comments := f (comments w); groups := groups w;
     pins := pins w; stars := stars w; subscriptions := subscriptions w;
     socket := socket w; toasts := toasts w; requests := requests w |}.

Definition set_groups (f : gmap string Entity.t → gmap string Entity.t)
  (w : World) : World :=
  {| documents := documents w; collections := collections w;
     memberships := memberships w; userMemberships := userMemberships w;
     policies := policies w; comments := comments w; groups := f (groups w);
     pins := pins w; stars := stars w; subscriptions := subscriptions w;
     socket := socket w; toasts := toasts w; requests := requests w |}.

Definition set_pins (f : gmap string Entity.t → gmap string Entity.t)
  (w : World) : World :=
  {| documents := documents w; collections := collections w;
     memberships := memberships w; userMemberships := userMemberships w;
     policies := policies w; comments := comments w; groups := groups w;
     pins := f (pins w); stars := stars w; subscriptions := subscriptions w;
     socket := socket w; toasts := toasts w; requests := requests w |}.

Definition set_stars (f : gmap string Entity.t → gmap string Entity.t)
  (w : World) : World :=
  {| documents := documents w; collections := collections w;
     memberships := memberships w; userMemberships := userMemberships w;
     policies := policies w; comments := comments w; groups := groups w;
     pins := pins w; stars := f (stars w); subscriptions := subscriptions w;
     socket := socket w; toasts := toasts w; requests := requests w |}.

Definition set_subscriptions (f : gmap string Entity.t → gmap string Entity.t)
  (w : World) : World :=
  {| documents := documents w; collections := collections w;
     memberships := memberships w; userMemberships := userMemberships w;
     policies := policies w; comments := comments w; groups := groups w;
     pins := pins w; stars := stars w; subscriptions := f (subscriptions w);
     socket := socket w; toasts := toasts w; requests := requests w |}.

Definition set_socket (f : option Socket → option Socket) (w : World) : World :=
  {| documents := documents w; collections := collections w;
     memberships := memberships w; userMemberships := userMemberships w;
     policies := policies w; comments := comments w; groups := groups w;
     pins := pins w; stars := stars w; subscriptions := subscriptions w;
     socket := f (socket w); toasts := toasts w; requests := requests w |}.

Definition set_toasts (f : list Toast → list Toast) (w : World) : World :=
  {| documents := documents w; collections := collections w;
     memberships := memberships w; userMemberships := userMemberships w;
     policies := policies w; comments := comments w; groups := groups w;
     pins := pins w; stars := stars w; subscriptions := subscriptions w;
     socket := socket w; toasts := f (toasts w); requests := requests w |}.

Definition set_requests (f : list Request → list Request) (w : World) : World :=
  {| documents := documents w; collections := collections w;
     memberships := memberships w; userMemberships := userMemberships w;
     policies := policies w; comments := comments w; groups := groups w;
     pins := pins w; stars := stars w; subscriptions := subscriptions w;
     socket := socket w; toasts := toasts w; requests := f (requests w) |}.

(** The authoritative source, as seen through the two fetches the entities
    handler issues: what it answers may depend on the identifier asked for
    and on every request made so far. *)
Record Server := {
  documentsInfo : list Request → string → Completion Document.t;
  collectionsDocuments : list Request → string → Completion (list NavigationNode);
}.

(** ** Event payloads *)

Module Descriptor.
Record t := { id : string; updatedAt : option string }.
End Descriptor.

(** [fetchIfMissing] is optional on the wire; an absent flag is falsy and
    is read here as [false]. *)
Record WebsocketEntitiesEvent := {
  documentIds : option (list Descriptor.t);
  collectionIds : option (list Descriptor.t);
  fetchIfMissing : bool;
}.

Definition set_collectionIds (v : option (list Descriptor.t))
  (event : WebsocketEntitiesEvent) : WebsocketEntitiesEvent :=
  {| documentIds := documentIds event; collectionIds := v;
     fetchIfMissing := fetchIfMissing event |}.

Record WebsocketEntityDeletedEvent := { modelId : string }.

Definition present {A} (o : option A) : bool :=
  match o with
  | Some _ => true
  | None => false
  end.

(** lodash [find(descriptors, { id })]: the first descriptor whose [id] is
    strictly equal to the given value; a [null] or [undefined] value equals
    no identifier. *)
Definition find_id (descriptors : list Descriptor.t) (id : option string)
  : option Descriptor.t :=
  List.find (λ c, bool_decide (Some (Descriptor.id c) = id)) descriptors.

(** ** The handlers *)

Section Handlers.

(** the authoritative source behind the stores *)
Variable server : Server.
(** [auth?.user?.id] *)
Variable currentUserId : option string.
(** [new Date().toISOString()] at the time the handler runs *)
Variable now : string.

(** Modelled from the spec: [documents.fetch(id, { force: true })] asks the
    authoritative source for the full record; the answer is merged into the
    store and returned, a failure is thrown and leaves the store alone. *)
Definition documents_fetch (id : string) : M World Document.t := λ w,
  let w' := set_requests (λ rs, rs ++ [DocumentsInfo id]) w in
  match documentsInfo server (requests w) id with
  | Normal d => (Normal d, set_documents (Store.add d) w')
  | Throw e => (Throw e, w')
  end.

(** Modelled from the spec: [collection.fetchDocuments({ force: true })]
    asks for the collection's document list and stores it on the cached
    collection; a failure is thrown and leaves the store alone. *)
Definition fetchDocuments (collection : Collection.t) : M World unit := λ w,
  let id := Collection.id collection in
  let w' := set_requests (λ rs, rs ++ [CollectionsDocuments id]) w in
  match collectionsDocuments server (requests w) id with
  | Normal nodes =>
      (Normal tt,
       set_collections (alter (Collection.set_documents (Some nodes)) id) w')
  | Throw e => (Throw e, w')
  end.

(** Modelled from the spec: [documents.inCollection(collectionId)], the
    cached documents whose collection reference is the given collection,
    as references into the store. *)
Definition inCollection (collectionId : string)
  (docs : gmap string Document.t) : list string :=
  (map_to_list
     (filter (λ kv, Document.collectionId kv.2 = Some collectionId) docs)).*1.

(** *** authenticated / unauthorized *)

Definition on_authenticated : M World unit :=
  modify (set_socket (λ socket,
    match socket with
    | Some s => Some (set_authenticated true s)
    | None => None
    end)).

Definition on_unauthorized (err : Error) : M World unit :=
  modify (set_socket (λ socket,
    match socket with
    | Some s => Some (set_authenticated false s)
    | None => None
    end));;
  modify (set_toasts (λ ts, ts ++ [ToastError (message err)]));;
  throw err.

(** *** entities *)

(** One iteration of the loop over [event.documentIds]. *)
Definition document_iteration (documentDescriptor : Descriptor.t)
  (event : WebsocketEntitiesEvent) : M World (Control WebsocketEntitiesEvent) :=
  let documentId := Descriptor.id documentDescriptor in
  document ← gets (λ w, Store.get documentId (documents w));
  let previousTitle := Document.title <$> document in
  if bool_decide (Document.updatedAt <$> document
                  = Descriptor.updatedAt documentDescriptor)
  then mret (Proceed event)
  else if negb (present document) && negb (fetchIfMissing event)
  then mret (Proceed event)
  else
    fetched ← try_catch
      (d ← documents_fetch documentId; mret (Proceed (Some d)))
      (λ err,
         if instanceof err AuthorizationError || instanceof err NotFoundError
         then modify (set_documents (Store.remove documentId));; mret Return
         else mret (Proceed document));
    match fetched with
    | Return => mret Return
    | Proceed None => mret (Proceed event)
    | Proceed (Some document) =>
        if bool_decide (previousTitle ≠ Some (Document.title document))
        then
          let event :=
            match collectionIds event with
            | Some _ => event
            | None => set_collectionIds (Some []) event
            end in
          let existing :=
            find_id (default [] (collectionIds event))
                    (Document.collectionId document) in
          match Document.collectionId document with
          | Some collectionId =>
              if negb (present existing) && truthy (Some collectionId)
              then mret (Proceed (set_collectionIds
                     (Some (default [] (collectionIds event)
                            ++ [{| Descriptor.id := collectionId;
                                   Descriptor.updatedAt := None |}]))
                     event))
              else mret (Proceed event)
          | None => mret (Proceed event)
          end
        else mret (Proceed event)
    end.

(** [collection?.documents?.length] in a boolean position *)
Definition has_documents (collection : option Collection.t) : bool :=
  match collection with
  | Some c =>
      match Collection.documents c with
      | Some nodes => negb (bool_decide (length nodes = 0))
      | None => false
      end
  | None => false
  end.

(** One iteration of the loop over [event.collectionIds]. *)
Definition collection_iteration (event : WebsocketEntitiesEvent)
  (collectionDescriptor : Descriptor.t) (_ : unit) : M World (Control unit) :=
  let collectionId := Descriptor.id collectionDescriptor in
  collection ← gets (λ w, Store.get collectionId (collections w));
  if bool_decide (collection ≫= Collection.updatedAt
                  = Descriptor.updatedAt collectionDescriptor)
  then mret (Proceed tt)
  else if negb (has_documents collection) && negb (fetchIfMissing event)
  then mret (Proceed tt)
  else
    try_catch
      (match collection with
       | Some c => fetchDocuments c
       | None => mret tt
       end;;
       mret (Proceed tt))
      (λ err,
         if instanceof err AuthorizationError || instanceof err NotFoundError
         then
           modify (set_memberships (Store.removeAll (λ m,
             bool_decide (Membership.collectionId m = collectionId))));;
           modify (set_collections (Store.remove collectionId));;
           mret Return
         else mret (Proceed tt)).

Definition on_entities (event : WebsocketEntitiesEvent) : M World unit :=
  afterDocuments ←
    match documentIds event with
    | Some descriptors => for_of descriptors document_iteration event
    | None => mret (Proceed event)
    end;
  match afterDocuments with
  | Return => mret tt
  | Proceed event =>
      match collectionIds event with
      | Some descriptors =>
          for_of descriptors (collection_iteration event) tt;; mret tt
      | None => mret tt
      end
  end.

(** *** documents.remove_user / collections.remove_user *)

Definition on_documents_remove_user (event : UserMembership.t) : M World unit :=
  modify (set_userMemberships (Store.remove (UserMembership.id event)));;
  (if bool_decide (Some (UserMembership.userId event) = currentUserId)
   then
     document ← gets (λ w,
       Store.get (UserMembership.documentId event) (documents w));
     match document with
     | Some document =>
         for_each (Document.childDocuments document) (λ childDocument,
           modify (set_policies (Store.remove childDocument)))
     | None => mret tt
     end
   else mret tt);;
  policy ← gets (λ w,
    Store.get (UserMembership.documentId event) (policies w));
  match policy with
  | Some policy =>
      if bool_decide (Policy.read (Policy.abilities policy) = false)
      then modify (set_documents
             (Store.remove (UserMembership.documentId event)))
      else mret tt
  | None => mret tt
  end.

Definition on_collections_remove_user (event : Membership.t) : M World unit :=
  modify (set_memberships (Store.remove (Membership.id event)));;
  policy ← gets (λ w,
    Store.get (Membership.collectionId event) (policies w));
  match policy with
  | Some policy =>
      if bool_decide (Policy.read (Policy.abilities policy) = false)
      then modify (set_collections
             (Store.remove (Membership.collectionId event)))
      else mret tt
  | None => mret tt
  end.

(** *** create / delete of the plain entity kinds *)

Definition on_comments_create (event : Entity.t) : M World unit :=
  modify (set_comments (Store.add event)).

Definition on_comments_delete (event : WebsocketEntityDeletedEvent)
  : M World unit :=
  modify (set_comments (Store.remove (modelId event))).

Definition on_groups_create (event : Entity.t) : M World unit :=
  modify (set_groups (Store.add event)).

Definition on_groups_delete (event : WebsocketEntityDeletedEvent)
  : M World unit :=
  modify (set_groups (Store.remove (modelId event))).

Definition on_pins_create (event : Entity.t) : M World unit :=
  modify (set_pins (Store.add event)).

Definition on_pins_delete (event : WebsocketEntityDeletedEvent)
  : M World unit :=
  modify (set_pins (Store.remove (modelId event))).

Definition on_stars_create (event : Entity.t) : M World unit :=
  modify (set_stars (Store.add event)).

Definition on_stars_delete (event : WebsocketEntityDeletedEvent)
  : M World unit :=
  modify (set_stars (Store.remove (modelId event))).

Definition on_subscriptions_create (event : Entity.t) : M World unit :=
  modify (set_subscriptions (Store.add event)).

Definition on_subscriptions_delete (event : WebsocketEntityDeletedEvent)
  : M World unit :=
  modify (set_subscriptions (Store.remove (modelId event))).

(** *** collections.create / collections.delete *)

Definition on_collections_create (event : Collection.t) : M World unit :=
  modify (set_collections (Store.add event)).

(** What the handler does to one contained document: a draft is detached
    from the collection, a published document is marked deleted. *)
Definition detach_or_delete (deletedAt : string) (doc : Document.t)
  : Document.t :=
  if negb (truthy (Document.publishedAt doc))
  then Document.set_collectionId None doc
  else Document.set_deletedAt (Some deletedAt) doc.

Definition on_collections_delete (event : WebsocketEntityDeletedEvent)
  : M World unit :=
  let collectionId := modelId event in
  let deletedAt := now in
  deletedDocuments ← gets (λ w, inCollection collectionId (documents w));
  for_each deletedDocuments (λ ref,
    doc ← gets (λ w, documents w !! ref);
    match doc with
    | Some doc =>
        modify (set_documents (alter (detach_or_delete deletedAt) ref));;
        modify (set_policies (Store.remove (Document.id doc)))
    | None => mret tt
    end);;
  modify (set_memberships (Store.removeAll (λ m,
    bool_decide (Membership.collectionId m = collectionId))));;
  modify (set_collections (Store.remove collectionId)).

End Handlers.

(** ** The server-side comment model *)

Module User.
Record t := { id : string; name : string }.
End User.

Module Comment.
Record t := {
  id : string;
  createdById : string;
  resolvedBy : option User.t;
  resolvedById : option string;
  documentId : string;
  parentCommentId : option string;
}.

Definition set_resolved (by_ : option User.t) (byId : option string) (c : t)
  : t :=
  {| id := id c; createdById := createdById c; resolvedBy := by_;
     resolvedById := byId; documentId := documentId c;
     parentCommentId := parentCommentId c |}.

(** A model instance: the attributes held in memory ([this]) and the
    calls made to the persistence layer's [save], each with the attributes
    it was handed. *)
Record Instance := { this : t; saved : list t }.

Definition assign (f : t → t) : M Instance unit :=
  modify (λ i, {| this := f (this i); saved := saved i |}).

(** [this.save(options)] is the persistence layer's; only its call is
    recorded. *)
Definition save : M Instance unit :=
  modify (λ i, {| this := this i; saved := saved i ++ [this i] |}).

Definition resolve (resolvedBy : User.t) : M Instance unit :=
  self ← gets this;
  if truthy (resolvedById self)
  then throw {| errorClass := ValidationError;
                message := "Comment is already resolved" |}
  else if truthy (parentCommentId self)
  then throw {| errorClass := ValidationError;
                message := "Cannot resolve a reply" |}
  else
    assign (set_resolved (Some resolvedBy) (Some (User.id resolvedBy)));;
    save.

Definition unresolve : M Instance unit :=
  self ← gets this;
  if negb (truthy (resolvedById self))
  then throw {| errorClass := ValidationError;
                message := "Comment is not resolved" |}
  else
    assign (set_resolved None None);;
    save.
End Comment.

(** * Notions used in the statements *)

(** The state of a store "as if the entity had never been added": the
    store before the events without the identifier, which is the store
    before the events when it did not hold the identifier. *)
Definition never_added {A} (id : string) (before after : gmap string A) : Prop :=
  after = delete id before ∧ (before !! id = None → after = before).

(** The world after two events handled one after the other. *)
Definition after_both (first second : M World unit) (w : World) : World :=
  ((first;; second) w).2.

(** The request log after one more request. *)
Definition asked (r : Request) (w : World) : World :=
  set_requests (λ rs, rs ++ [r]) w.

(** What the iteration does to the event once the refetched document is
    at hand and its title differs from the one cached before. *)
Definition with_collection_of (document : Document.t)
  (event : WebsocketEntitiesEvent) : WebsocketEntitiesEvent :=
  let listed := default [] (collectionIds event) in
  match Document.collectionId document with
  | Some collectionId =>
      if negb (present (find_id listed (Some collectionId)))
         && truthy (Some collectionId)
      then set_collectionIds
             (Some (listed ++ [{| Descriptor.id := collectionId;
                                  Descriptor.updatedAt := None |}])) event
      else set_collectionIds (Some listed) event
  | None => set_collectionIds (Some listed) event
  end.

(** The memberships scoped to a collection are dropped, then the
    collection itself. *)
Definition evict_collection (collectionId : string) (w : World) : World :=
  set_collections (Store.remove collectionId)
    (set_memberships (Store.removeAll (λ m,
       bool_decide (Membership.collectionId m = collectionId))) w).



(** * Sample data *)

Definition world0 : World :=
  {| documents := ∅; collections := ∅; memberships := ∅;
     userMemberships := ∅; policies := ∅; comments := ∅; groups := ∅;
     pins := ∅; stars := ∅; subscriptions := ∅;
     socket := Some {| authenticated := false; disconnected := false |};
     toasts := []; requests := [] |}.

Definition jwt_expired : Error :=
  {| errorClass := GenericError; message := "jwt expired" |}.

(** A small cache used to run the handlers: a draft and a published
    document in collection "c1", one membership on it, and a policy that
    denies reading it. *)
Definition draft : Document.t :=
  {| Document.id := "d1"; Document.title := "Notes";
     Document.updatedAt := "t0"; Document.collectionId := Some "c1";
     Document.publishedAt := None; Document.deletedAt := None;
     Document.childDocuments := [] |}.

Definition handbook : Document.t :=
  {| Document.id := "d2"; Document.title := "Handbook";
     Document.updatedAt := "t0"; Document.collectionId := Some "c1";
     Document.publishedAt := Some "t0"; Document.deletedAt := None;
     Document.childDocuments := [] |}.

Definition engineering : Collection.t :=
  {| Collection.id := "c1"; Collection.updatedAt := Some "t0";
     Collection.documents := Some [] |}.

Definition cache : World :=
  {| documents := {[ "d1" := draft; "d2" := handbook ]};
     collections := {[ "c1" := engineering ]};
     memberships :=
       {[ "m1" := {| Membership.id := "m1"; Membership.userId := "u1";
                     Membership.collectionId := "c1" |} ]};
     userMemberships := ∅;
     policies :=
       {[ "c1" := {| Policy.id := "c1";
                     Policy.abilities := {| Policy.read := false |} |} ]};
     comments := ∅; groups := ∅; pins := ∅; stars := ∅; subscriptions := ∅;
     socket := Some {| authenticated := true; disconnected := false |};
     toasts := []; requests := [] |}.

Definition hello : Entity.t :=
  {| Entity.id := "k1"; Entity.fields := {[ "text" := JStr "hello" ]} |}.

Definition forbidden : Error :=
  {| errorClass := AuthorizationError; message := "Forbidden" |}.

Definition offline : Error :=
  {| errorClass := GenericError; message := "Network error" |}.

(** A source that refuses every request. *)
Definition refusing : Server :=
  {| documentsInfo := λ _ _, Throw forbidden;
     collectionsDocuments := λ _ _, Throw forbidden |}.

(** A source that cannot be reached. *)
Definition unreachable : Server :=
  {| documentsInfo := λ _ _, Throw offline;
     collectionsDocuments := λ _ _, Throw offline |}.

Definition renamed : Document.t :=
  {| Document.id := "d1"; Document.title := "Meeting notes";
     Document.updatedAt := "t1"; Document.collectionId := Some "c1";
     Document.publishedAt := None; Document.deletedAt := None;
     Document.childDocuments := [] |}.

(** A source on which document "d1" has been renamed. *)
Definition answering : Server :=
  {| documentsInfo := λ _ _, Normal renamed;
     collectionsDocuments := λ _ _,
       Normal [{| nodeId := "d2"; nodeTitle := "Handbook" |}] |}.

Definition stamp (id updatedAt : string) : Descriptor.t :=
  {| Descriptor.id := id; Descriptor.updatedAt := Some updatedAt |}.

Definition batch (docs cols : list Descriptor.t) (fetchIfMissing : bool)
  : WebsocketEntitiesEvent :=
  {| documentIds := Some docs; collectionIds := Some cols;
     fetchIfMissing := fetchIfMissing |}.

(** The batch [{documentIds: [{id: "d1", updatedAt: "t0"}],
    fetchIfMissing: true}] on a client that has nothing cached. *)
Definition first_sight : WebsocketEntitiesEvent :=
  {| documentIds := Some [stamp "d1" "t0"]; collectionIds := None;
     fetchIfMissing := true |}.


Definition alice : User.t := {| User.id := "u1"; User.name := "Alice" |}.

(** A reply in a comment thread, not resolved. *)
Definition reply : Comment.t :=
  {| Comment.id := "k2"; Comment.createdById := "u2";
     Comment.resolvedBy := None; Comment.resolvedById := None;
     Comment.documentId := "d1"; Comment.parentCommentId := Some "k1" |}.

(** The head of a comment thread, not resolved. *)
Definition thread : Comment.t :=
  {| Comment.id := "k1"; Comment.createdById := "u2";
     Comment.resolvedBy := None; Comment.resolvedById := None;
     Comment.documentId := "d1"; Comment.parentCommentId := None |}.

(** * The filter menu *)

(** The state logic of the [FilterOptions] component
    (app/components/FilterOptions.tsx): which option counts as selected,
    what the button shows, and what the search box does to the list of
    options on display. *)
Module FilterOptions.

Record TFilterOption := { key : string; label : string; note : option string }.

(** A prop of type [string | null | undefined]. *)
Inductive Nullable :=
  | Undefined
  | Null
  | Str (s : string).

(** The props the logic reads; an optional prop that is not passed is
    [None]. *)
Record Props := {
  options : list TFilterOption;
  activeKey : Nullable;
  defaultLabel : option string;
  selectedPrefix : option string;
  search : option (string → Completion (list TFilterOption));
}.

(** The destructuring default [activeKey = ""] replaces [undefined] only;
    [null] stays, here as [None]. *)
Definition activeKey_or_default (props : Props) : option string :=
  match activeKey props with
  | Undefined => Some ""
  | Null => None
  | Str s => Some s
  end.

(** [s.includes(sub)] *)
Fixpoint includes (s sub : string) : bool :=
  String.prefix sub s
  || match s with
     | EmptyString => false
     | String _ s' => includes s' sub
     end.

Section FilterOptions.

(** [String.prototype.toLowerCase], of the JavaScript runtime *)
Variable toLowerCase : string → string.
(** the translation function [t] of [useTranslation] *)
Variable t : string → string.

(** [options.find((option) => option.key === activeKey) || options[0]] *)
Definition selected (props : Props) : option TFilterOption :=
  match List.find (λ option, bool_decide (Some (key option)
                                          = activeKey_or_default props))
                  (options props) with
  | Some option => Some option
  | None => head (options props)
  end.

Definition selectedLabel (props : Props) : string :=
  match selected props with
  | Some selected =>
      default "" (selectedPrefix props) +:+ " " +:+ label selected
  | None => ""
  end.

(** What the menu button shows:
    [activeKey ? selectedLabel : tDefaultLabel]. *)
Definition buttonText (props : Props) : string :=
  if truthy (activeKey_or_default props)
  then selectedLabel props
  else default (t "Filter options") (defaultLabel props).

(** The options whose label contains the query, case-insensitively. *)
Definition local_matches (props : Props) (value : string)
  : list TFilterOption :=
  filter (λ option,
            includes (toLowerCase (label option)) (toLowerCase value) = true)
         (options props).

(** [handleFilter], on the state [filteredOptions]; [value] is
    [event.target.value].  The awaited [search] either answers or
    rejects. *)
Definition handleFilter (props : Props) (value : string)
  : M (list TFilterOption) unit :=
  if truthy (Some value)
  then
    let res := local_matches props value in
    match search props with
    | Some search =>
        more ← (λ filteredOptions, (search value, filteredOptions));
        let missing :=
          filter (λ item, key item ∉ key <$> res) more in
        modify (λ _, missing ++ res)
    | None => modify (λ _, res)
    end
  else modify (λ _, options props).

End FilterOptions.
End FilterOptions.

(** ** Sample data for the filter menu *)

(** Lower case on the ASCII letters, standing for the runtime's
    [toLowerCase] on such strings. *)
Fixpoint lower_ascii (s : string) : string :=
  match s with
  | EmptyString => EmptyString
  | String c s' =>
      let n := Ascii.nat_of_ascii c in
      String (if (65 <=? n)%nat && (n <=? 90)%nat
              then Ascii.ascii_of_nat (n + 32)
              else c)
             (lower_ascii s')
  end.

Definition author (key label : string) : FilterOptions.TFilterOption :=
  {| FilterOptions.key := key; FilterOptions.label := label;
     FilterOptions.note := None |}.

(** A directory that knows two more people called Bob. *)
Definition directory (query : string)
  : Completion (list FilterOptions.TFilterOption) :=
  Normal [author "u2" "Bob (remote)"; author "u3" "Bobby"].

Definition authors : FilterOptions.Props :=
  {| FilterOptions.options := [author "u1" "Alice"; author "u2" "Bob"];
     FilterOptions.activeKey := FilterOptions.Str "u9";
     FilterOptions.defaultLabel := None;
     FilterOptions.selectedPrefix := Some "Author:";
     FilterOptions.search := Some directory |}.

(** * The connection and the rest of the session *)

(** A group's membership in a collection. *)
Module GroupMembership.
Record t := { id : string; groupId : string; collectionId : string }.
End GroupMembership.

(** The fields of the team that the component reads; in an event, a field
    that is [None] is absent. *)
Module Team.
Record t := { id : string; sharing : option bool; domain : option string }.
End Team.

#[global] Instance Team_eq_dec : EqDecision Team.t.
Proof. solve_decision. Defined.

(** Modelled from the spec: [team.updateData(event)] overwrites the fields
    the event carries and leaves the others. *)
#[global] Instance Team_model : Model Team.t :=
  {| model_id := Team.id;
     updateData := λ new old,
       {| Team.id := Team.id old;
          Team.sharing := incoming (Team.sharing new) (Team.sharing old);
          Team.domain := incoming (Team.domain new) (Team.domain old) |} |}.

(** An import or export running on the server.  The two enumerations are
    declared in [@shared/types], outside the excerpt. *)
Module FileOperation.
Inductive FileOperationState := Creating | Uploading | Complete | Error | Expired.
Inductive FileOperationType := Import | Export.

#[global] Instance FileOperationState_eq_dec : EqDecision FileOperationState.
Proof. solve_decision. Defined.

#[global] Instance FileOperationType_eq_dec : EqDecision FileOperationType.
Proof. solve_decision. Defined.

Record t := {
  id : string;
  state : option FileOperationState;
  type : option FileOperationType;
  (** [user?.id] *)
  userId : option string;
  name : option string;
}.
End FileOperation.

#[global] Instance FileOperation_model : Model FileOperation.t :=
  {| model_id := FileOperation.id;
     updateData := λ new old,
       {| FileOperation.id := FileOperation.id old;
          FileOperation.state :=
            incoming (FileOperation.state new) (FileOperation.state old);
          FileOperation.type :=
            incoming (FileOperation.type new) (FileOperation.type old);
          FileOperation.userId :=
            incoming (FileOperation.userId new) (FileOperation.userId old);
          FileOperation.name :=
            incoming (FileOperation.name new) (FileOperation.name old) |} |}.

Inductive Transport :=
  | Websocket
  | Polling.

(** Calls made into the transport library and the page. *)
Inductive Call :=
  | Io (transports : list Transport)
  | SocketClose
  | SocketDisconnect
  | AddVisibilityListener
  | RemoveVisibilityListener.

#[global] Instance Transport_eq_dec : EqDecision Transport.
Proof. solve_decision. Defined.

#[global] Instance Call_eq_dec : EqDecision Call.
Proof. solve_decision. Defined.

(** The provider component: the stores and socket of [World], the stores
    and session data the further handlers use, the transports currently
    allowed on the socket ([socket.io.opts.transports]) and the calls made
    so far. *)
Record Provider := {
  world : World;
  groupMemberships : gmap string GroupMembership.t;
  fileOperations : gmap string FileOperation.t;
  (** [auth.team] *)
  team : option Team.t;
  (** [auth.user?.id] *)
  user : option string;
  transports : list Transport;
  calls : list Call;
}.

Definition set_world (f : World → World) (p : Provider) : Provider :=
  {| world := f (world p); groupMemberships := groupMemberships p;
     fileOperations := fileOperations p; team := team p; user := user p;
     transports := transports p; calls := calls p |}.

Definition set_groupMemberships
  (f : gmap string GroupMembership.t → gmap string GroupMembership.t)
  (p : Provider) : Provider :=
  {| world := world p; groupMemberships := f (groupMemberships p);
     fileOperations := fileOperations p; team := team p; user := user p;
     transports := transports p; calls := calls p |}.

Definition set_fileOperations
  (f : gmap string FileOperation.t → gmap string FileOperation.t)
  (p : Provider) : Provider :=
  {| world := world p; groupMemberships := groupMemberships p;
     fileOperations := f (fileOperations p); team := team p; user := user p;
     transports := transports p; calls := calls p |}.

Definition set_team (f : option Team.t → option Team.t) (p : Provider)
  : Provider :=
  {| world := world p; groupMemberships := groupMemberships p;
     fileOperations := fileOperations p; team := f (team p); user := user p;
     transports := transports p; calls := calls p |}.

Definition set_transports (f : list Transport → list Transport)
  (p : Provider) : Provider :=
  {| world := world p; groupMemberships := groupMemberships p;
     fileOperations := fileOperations p; team := team p; user := user p;
     transports := f (transports p); calls := calls p |}.

Definition set_calls (f : list Call → list Call) (p : Provider) : Provider :=
  {| world := world p; groupMemberships := groupMemberships p;
     fileOperations := fileOperations p; team := team p; user := user p;
     transports := transports p; calls := f (calls p) |}.

(** A handler on the stores of [World], run inside the provider. *)
Definition in_world {A} (m : M World A) : M Provider A := λ p,
  match m (world p) with
  | (r, w) => (r, set_world (λ _, w) p)
  end.

Definition call (c : Call) : M Provider unit :=
  modify (set_calls (λ cs, cs ++ [c])).

Section Connection.

(** the socket that [io(...)] returns; whether it already reports itself
    connected is the transport library's business *)
Variable fresh : Socket.
(** the translation function [this.props.t] *)
Variable t : string → string.

(** *** Lifecycle *)

Definition createConnection : M Provider unit :=
  call (Io [Websocket]);;
  modify (set_transports (λ _, [Websocket]));;
  in_world (modify (set_socket (λ _, Some fresh)));;
  in_world (modify (set_socket (λ socket,
    match socket with
    | Some s => Some (set_authenticated false s)
    | None => None
    end))).

(** [pageVisible] is what [getPageVisible()] answers. *)
Definition checkConnection (pageVisible : bool) : M Provider unit :=
  socket ← gets (λ p, socket (world p));
  if match socket with
     | Some s => disconnected s
     | None => false
     end && pageVisible
  then
    call SocketClose;;
    in_world (modify (set_socket (λ _, None)));;
    createConnection
  else mret tt.

Definition componentDidMount : M Provider unit :=
  createConnection;;
  call AddVisibilityListener.

Definition componentWillUnmount : M Provider unit :=
  socket ← gets (λ p, socket (world p));
  match socket with
  | Some _ =>
      in_world (modify (set_socket (λ socket,
        match socket with
        | Some s => Some (set_authenticated false s)
        | None => None
        end)));;
      call SocketDisconnect
  | None => mret tt
  end;;
  call RemoveVisibilityListener.

(** The handler of the manager's [reconnect_attempt] event. *)
Definition on_reconnect_attempt : M Provider unit :=
  socket ← gets (λ p, socket (world p));
  match socket with
  | Some _ =>
      team ← gets team;
      modify (set_transports (λ _,
        if truthy (team ≫= Team.domain)
        then [Websocket]
        else [Websocket; Polling]))
  | None => mret tt
  end.

(** *** Further handlers *)

(** Modelled from the spec: [documents.all], the cached documents. *)
Definition all (docs : gmap string Document.t) : list Document.t :=
  (map_to_list docs).*2.

Definition on_teams_update (event : Team.t) : M Provider unit :=
  team ← gets team;
  match Team.sharing event with
  | Some sharing =>
      if bool_decide (Some sharing ≠ team ≫= Team.sharing)
      then
        documents ← gets (λ p, all (documents (world p)));
        in_world (for_each documents (λ document,
          modify (set_policies (Store.remove (Document.id document)))))
      else mret tt
  | None => mret tt
  end;;
  modify (set_team (λ team,
    match team with
    | Some team => Some (updateData event team)
    | None => None
    end)).

Definition on_collections_remove_group (event : GroupMembership.t)
  : M Provider unit :=
  modify (set_groupMemberships (Store.remove (GroupMembership.id event)));;
  policy ← gets (λ p,
    Store.get (GroupMembership.collectionId event) (policies (world p)));
  match policy with
  | Some policy =>
      if bool_decide (Policy.read (Policy.abilities policy) = false)
      then in_world (modify (set_collections
             (Store.remove (GroupMembership.collectionId event))))
      else mret tt
  | None => mret tt
  end.

(** An absent [event.name] gives a notice with an empty title. *)
Definition on_fileOperations_update (event : FileOperation.t)
  : M Provider unit :=
  modify (set_fileOperations (Store.add event));;
  user ← gets user;
  if bool_decide (FileOperation.state event = Some FileOperation.Complete)
     && bool_decide (FileOperation.type event = Some FileOperation.Import)
     && bool_decide (FileOperation.userId event = user)
  then in_world (modify (set_toasts (λ ts,
         ts ++ [ToastSuccess (default "" (FileOperation.name event))
                             (t "Your import completed")])))
  else mret tt.

(** *** What happens to a mounted provider *)

(** The transport library keeps [socket.disconnected] up to date as the
    connection comes up and goes down. *)
Definition transport_reports (disconnected : bool) : M Provider unit :=
  in_world (modify (set_socket (λ socket,
    match socket with
    | Some s => Some {| authenticated := authenticated s;
                        disconnected := disconnected |}
    | None => None
    end))).

(** What can happen to a mounted provider, as far as its socket, the
    transports and the team of the session go: the page becomes visible or
    hidden, the transport library attempts to reconnect or reports the
    state of the connection, the server signals [authenticated] or
    [unauthorized], and a [teams.update] event changes the team.  The
    other handlers read and change the stores only. *)
Inductive Happening :=
  | VisibilityChange (pageVisible : bool)
  | ReconnectAttempt
  | TransportReports (disconnected : bool)
  | AuthenticatedSignal
  | UnauthorizedSignal (err : Error)
  | TeamsUpdate (event : Team.t).

Definition happen (h : Happening) : M Provider unit :=
  match h with
  | VisibilityChange pageVisible => checkConnection pageVisible
  | ReconnectAttempt => on_reconnect_attempt
  | TransportReports disconnected => transport_reports disconnected
  | AuthenticatedSignal => in_world on_authenticated
  | UnauthorizedSignal err => in_world (on_unauthorized err)
  | TeamsUpdate event => on_teams_update event
  end.

(** The provider after a series of happenings; an error thrown by one
    handler does not keep the next event from being handled. *)
Definition after_all (hs : list Happening) (p : Provider) : Provider :=
  foldl (λ p h, (happen h p).2) p hs.

End Connection.

(** How often a call occurs in the log. *)
Definition occurrences (is_it : Call → bool) (cs : list Call) : nat :=
  length (List.filter is_it cs).

Definition is_io (c : Call) : bool :=
  match c with
  | Io _ => true
  | _ => false
  end.

Definition is_close (c : Call) : bool :=
  match c with
  | SocketClose => true
  | _ => false
  end.

#[global] Instance Happening_eq_dec : EqDecision Happening.
Proof. solve_decision. Defined.

(** What holds of a mounted provider, relative to the calls [io0] and
    [close0] made before it was mounted. *)
Definition connected_once (io0 close0 : nat) (p : Provider) : Prop :=
  is_Some (socket (world p))
  ∧ ∃ reconnections,
      occurrences is_io (calls p) = io0 + 1 + reconnections
      ∧ occurrences is_close (calls p) = close0 + reconnections.

(** ** Sample data for the session *)

Definition acme : Team.t :=
  {| Team.id := "t1"; Team.sharing := Some true;
     Team.domain := Some "acme.example" |}.

Definition connecting : Socket :=
  {| authenticated := false; disconnected := true |}.

Definition provider0 : Provider :=
  {| world := cache; groupMemberships := ∅; fileOperations := ∅;
     team := Some acme; user := Some "u1"; transports := []; calls := [] |}.

Definition import_done : FileOperation.t :=
  {| FileOperation.id := "f1";
     FileOperation.state := Some FileOperation.Complete;
     FileOperation.type := Some FileOperation.Import;
     FileOperation.userId := Some "u1";
     FileOperation.name := Some "notes.zip" |}.

(** ** Notions for the entities batch as a whole *)

(** The collection descriptors of an event, none when the list is absent. *)
Definition listed (event : WebsocketEntitiesEvent) : list Descriptor.t :=
  default [] (collectionIds event).

(** What the entities handler leaves alone: every store but those of
    documents, collections and memberships, the socket and the notices;
    and it only adds to the log of requests. *)
Definition quiet (w w' : World) : Prop :=
  userMemberships w' = userMemberships w
  ∧ policies w' = policies w
  ∧ comments w' = comments w
  ∧ groups w' = groups w
  ∧ pins w' = pins w
  ∧ stars w' = stars w
  ∧ subscriptions w' = subscriptions w
  ∧ socket w' = socket w
  ∧ toasts w' = toasts w
  ∧ requests w `prefix_of` requests w'.

(** How the loop over the document descriptors may change the event: at
    most [n] collection descriptors are appended, none of them with an
    [updatedAt], and identifiers that were pairwise distinct stay so. *)
Definition grown (n : nat) (event event' : WebsocketEntitiesEvent) : Prop :=
  documentIds event' = documentIds event
  ∧ fetchIfMissing event' = fetchIfMissing event
  ∧ ∃ extra,
      listed event' = listed event ++ extra
      ∧ (length extra ≤ n)%nat
      ∧ Forall (λ d, Descriptor.updatedAt d = None) extra
      ∧ (NoDup (Descriptor.id <$> listed event) →
         NoDup (Descriptor.id <$> listed event')).

(** A document descriptor that asks for nothing in the given state: the
    cached record is as recent, or nothing is cached and the event does
    not ask to fetch what is missing. *)
Definition document_settled (fetchIfMissing : bool) (w : World)
  (desc : Descriptor.t) : Prop :=
  Document.updatedAt <$> documents w !! Descriptor.id desc
    = Descriptor.updatedAt desc
  ∨ documents w !! Descriptor.id desc = None ∧ fetchIfMissing = false.

(** A collection descriptor that asks for nothing in the given state: the
    cached record is as recent, or the collection is not cached, or its
    document list is not loaded or empty and the event does not ask to
    fetch what is missing. *)
Definition collection_settled (fetchIfMissing : bool) (w : World)
  (desc : Descriptor.t) : Prop :=
  collections w !! Descriptor.id desc ≫= Collection.updatedAt
    = Descriptor.updatedAt desc
  ∨ collections w !! Descriptor.id desc = None
  ∨ has_documents (collections w !! Descriptor.id desc) = false
    ∧ fetchIfMissing = false.

(** ** documents.delete *)

(** The payload of a document event, as far as the handler reads it: the
    identifier and the collection reference; the other fields it carries
    are kept as they come. *)
Module DocumentEvent.
Record t := {
  id : string;
  collectionId : option string;
  fields : gmap string Json;
}.
End DocumentEvent.

(** The records a store holds, as its [orderedData] lists them; the
    handlers do not depend on the order. *)
Definition orderedData {A} (s : gmap string A) : list A := (map_to_list s).*2.

Section DocumentsDelete.

(** The record that [documents.add(event)] leaves in the store: the model
    built from the event when none is held, the held one updated by the
    event otherwise.  Building and updating belong to the model class. *)
Variable merged : DocumentEvent.t → option Document.t → Document.t.
(** [collection.removeDocument(id)], a method of the collection model *)
Variable removeDocument : string → Collection.t → Collection.t.

Definition on_documents_delete (event : DocumentEvent.t) : M World unit :=
  modify (set_documents (λ docs,
    <[DocumentEvent.id event :=
        merged event (docs !! DocumentEvent.id event)]> docs));;
  modify (set_policies (Store.remove (DocumentEvent.id event)));;
  match DocumentEvent.collectionId event with
  | Some collectionId =>
      if truthy (Some collectionId)
      then modify (set_collections
             (alter (removeDocument (DocumentEvent.id event)) collectionId))
      else mret tt
  | None => mret tt
  end;;
  stale ← gets (λ w,
    filter (λ m, UserMembership.documentId m = DocumentEvent.id event)
           (orderedData (userMemberships w)));
  for_each stale (λ m,
    modify (set_userMemberships (Store.remove (UserMembership.id m)))).

End DocumentsDelete.

(** A store whose records are held under their own identifier, as [add]
    files them. *)
Definition well_keyed {A} `{Model A} (s : gmap string A) : Prop :=
  ∀ k a, s !! k = Some a → model_id a = k.

#[global] Instance UserMembership_model : Model UserMembership.t :=
  {| model_id := UserMembership.id; updateData := λ new _, new |}.

Definition shared_notes : UserMembership.t :=
  {| UserMembership.id := "um1"; UserMembership.userId := "u2";
     UserMembership.documentId := "d1" |}.

Definition shared_handbook : UserMembership.t :=
  {| UserMembership.id := "um2"; UserMembership.userId := "u2";
     UserMembership.documentId := "d2" |}.

Definition shared_cache : World :=
  set_userMemberships
    (λ _, {[ "um1" := shared_notes; "um2" := shared_handbook ]}) cache.

Definition notes_deleted : DocumentEvent.t :=
  {| DocumentEvent.id := "d1"; DocumentEvent.collectionId := Some "c1";
     DocumentEvent.fields := {[ "deletedAt" := JStr "t9" ]} |}.

(** ** Notions for the order of the batch and for the session *)

Definition set_documentIds (v : option (list Descriptor.t))
  (event : WebsocketEntitiesEvent) : WebsocketEntitiesEvent :=
  {| documentIds := v; collectionIds := collectionIds event;
     fetchIfMissing := fetchIfMissing event |}.

(** The first half of the entities handler: the loop over the document
    descriptors, when the event has any. *)
Definition document_phase (server : Server) (event : WebsocketEntitiesEvent)
  : M World (Control WebsocketEntitiesEvent) :=
  match documentIds event with
  | Some descriptors => for_of descriptors (document_iteration server) event
  | None => mret (Proceed event)
  end.

(** In the words of the design document, a processed descriptor does not
    depend on the descriptors after it: the requests the handler makes for
    a batch are then made first, in the same order, for the batch with
    further collection descriptors [later] appended, which come after
    every descriptor of the batch. *)
Definition later_descriptors_ignored (server : Server) (w : World)
  (docs cols later : list Descriptor.t) (fetchIfMissing : bool) : Prop :=
  requests (on_entities server (batch docs cols fetchIfMissing) w).2
  `prefix_of`
  requests (on_entities server (batch docs (cols ++ later) fetchIfMissing) w).2.


(** The calls that open or close a connection. *)
Definition is_connection_call (c : Call) : bool := is_io c || is_close c.

(** The cache with the document list of collection "c1" loaded. *)
Definition loaded_cache : World :=
  set_collections (λ _, {[ "c1" :=
    Collection.set_documents
      (Some [{| nodeId := "d2"; nodeTitle := "Handbook" |}]) engineering ]})
    cache.


Definition editors_on_engineering : GroupMembership.t :=
  {| GroupMembership.id := "gm1"; GroupMembership.groupId := "g1";
     GroupMembership.collectionId := "c1" |}.

(** A session in which a group is a member of collection "c1". *)
Definition team_provider : Provider :=
  set_groupMemberships (λ _, {[ "gm1" := editors_on_engineering ]}) provider0.

(** * Properties *)

(** ** Running a computation *)

Lemma bind_normal {S A B} (m : M S A) (f : A → M S B) (s s' : S) (a : A) :
  m s = (Normal a, s') → (m ≫= f) s = f a s'.
Proof. intros Hm. unfold mbind, M_bind. by rewrite Hm. Qed.

Lemma bind_throw {S A B} (m : M S A) (f : A → M S B) (s s' : S) (e : Error) :
  m s = (Throw e, s') → (m ≫= f) s = (Throw e, s').
Proof. intros Hm. unfold mbind, M_bind. by rewrite Hm. Qed.

Lemma bind_modify {S B} (g : S → S) (f : unit → M S B) (s : S) :
  (modify g ≫= f) s = f tt (g s).
Proof. reflexivity. Qed.

Lemma bind_gets {S A B} (g : S → A) (f : A → M S B) (s : S) :
  (gets g ≫= f) s = f (g s) s.
Proof. reflexivity. Qed.

Lemma bind_ret {S A B} (a : A) (f : A → M S B) (s : S) :
  (mret a ≫= f) s = f a s.
Proof. reflexivity. Qed.

Lemma bind_assoc {S A B C} (m : M S A) (f : A → M S B) (g : B → M S C) (s : S) :
  ((m ≫= f) ≫= g) s = (m ≫= (λ a, f a ≫= g)) s.
Proof. unfold mbind, M_bind. by destruct (m s) as [[a|e] s']. Qed.

Ltac run :=
  repeat first
    [ rewrite bind_assoc
    | rewrite bind_modify
    | rewrite bind_gets
    | rewrite bind_ret
    | progress unfold mret, M_ret, throw, modify, gets
    | progress cbn [fst snd] ].

(** ** The authentication handshake *)

(** C8: with a socket held by the provider, the [authenticated] signal
    leaves its flag true and completes normally; the [unauthorized] signal
    leaves the flag false, appends an error notice carrying the error's
    message, and completes by throwing that same error. *)
Theorem authentication_signals (err : Error) (s : Socket) (w : World)
  (Hsocket : socket w = Some s) :
  (on_authenticated w).1 = Normal tt
  ∧ authenticated <$> socket (on_authenticated w).2 = Some true
  ∧ (on_unauthorized err w).1 = Throw err
  ∧ authenticated <$> socket (on_unauthorized err w).2 = Some false
  ∧ toasts (on_unauthorized err w).2 = toasts w ++ [ToastError (message err)].
Proof.
  unfold on_authenticated, on_unauthorized. run.
  cbn. rewrite Hsocket. by repeat split.
Qed.

Lemma authentication_signals_witness :
  (on_unauthorized jwt_expired world0).1 = Throw jwt_expired
  ∧ toasts (on_unauthorized jwt_expired world0).2 = [ToastError "jwt expired"].
Proof.
  pose proof (authentication_signals jwt_expired
    {| authenticated := false; disconnected := false |} world0 eq_refl)
    as (_ & _ & Hthrow & _ & Htoast).
  split; [exact Hthrow | exact Htoast].
Defined.

(** ** Resolving comments *)

(** C10: [resolve] throws a ValidationError, changing nothing, exactly when
    the comment already carries a resolver id or a parent comment id;
    otherwise it records the resolving user and her id on the comment and
    calls [save] on the result.  [unresolve] throws a ValidationError,
    changing nothing, exactly when the comment carries no resolver id;
    otherwise it clears both fields and calls [save] on the result.  An id
    is carried when the field holds a non-empty string. *)
Theorem comment_resolve_unresolve (user : User.t) (i : Comment.Instance) :
  let c := Comment.this i in
  let resolved := Comment.set_resolved (Some user) (Some (User.id user)) c in
  let cleared := Comment.set_resolved None None c in
  (if truthy (Comment.resolvedById c) || truthy (Comment.parentCommentId c)
   then ∃ msg, Comment.resolve user i
               = (Throw {| errorClass := ValidationError; message := msg |}, i)
   else Comment.resolvedById resolved = Some (User.id user)
        ∧ Comment.resolvedBy resolved = Some user
        ∧ Comment.resolve user i
          = (Normal tt, {| Comment.this := resolved;
                           Comment.saved := Comment.saved i ++ [resolved] |}))
  ∧ (if truthy (Comment.resolvedById c)
     then Comment.resolvedById cleared = None
          ∧ Comment.resolvedBy cleared = None
          ∧ Comment.unresolve i
            = (Normal tt, {| Comment.this := cleared;
                             Comment.saved := Comment.saved i ++ [cleared] |})
     else ∃ msg, Comment.unresolve i
                 = (Throw {| errorClass := ValidationError; message := msg |}, i)).
Proof.
  intros c resolved cleared. subst c resolved cleared.
  unfold Comment.resolve, Comment.unresolve. rewrite !bind_gets.
  split.
  - destruct (truthy (Comment.resolvedById (Comment.this i))); cbn [orb].
    { by eexists. }
    destruct (truthy (Comment.parentCommentId (Comment.this i))).
    { by eexists. }
    by repeat split.
  - destruct (truthy (Comment.resolvedById (Comment.this i))); cbn [negb].
    { by repeat split. }
    by eexists.
Qed.

Example resolve_reply :
  Comment.resolve alice {| Comment.this := reply; Comment.saved := [] |}
  = (Throw {| errorClass := ValidationError;
              message := "Cannot resolve a reply" |},
     {| Comment.this := reply; Comment.saved := [] |}).
Proof. reflexivity. Qed.

Example resolve_then_unresolve :
  (Comment.resolve alice;; Comment.unresolve)
    {| Comment.this := thread; Comment.saved := [] |}
  = (Normal tt,
     {| Comment.this := thread;
        Comment.saved :=
          [Comment.set_resolved (Some alice) (Some "u1") thread; thread] |}).
Proof. reflexivity. Qed.

Example unresolve_unresolved :
  (Comment.unresolve {| Comment.this := thread; Comment.saved := [] |}).1
  = Throw {| errorClass := ValidationError;
             message := "Comment is not resolved" |}.
Proof. reflexivity. Qed.

(** ** Facts about the store contract *)

Section StoreFacts.
Context {A : Type} `{Model A}.

Lemma remove_add (p : A) (s : gmap string A) :
  Store.remove (model_id p) (Store.add p s) = Store.remove (model_id p) s.
Proof. unfold Store.remove, Store.add. apply delete_insert_eq. Qed.

Lemma remove_add_fresh (p : A) (s : gmap string A) :
  s !! model_id p = None →
  Store.remove (model_id p) (Store.add p s) = s.
Proof. intros Hfresh. rewrite remove_add. by apply delete_id. Qed.


End StoreFacts.

(** ** Cascade of a collection removal *)

Section CollectionsDelete.
Variable now : string.

(** The loop over the contained documents never throws, rewrites exactly
    the referenced documents, and leaves the membership and collection
    stores alone. *)
Lemma detach_loop (refs : list string) (w : World) :
  ∃ w',
    for_each refs (λ ref,
      doc ← gets (λ w, documents w !! ref);
      match doc with
      | Some doc =>
          modify (set_documents (alter (detach_or_delete now) ref));;
          modify (set_policies (Store.remove (Document.id doc)))
      | None => mret tt
      end) w = (Normal tt, w')
    ∧ documents w'
      = foldl (λ docs ref, alter (detach_or_delete now) ref docs)
              (documents w) refs
    ∧ memberships w' = memberships w
    ∧ collections w' = collections w.
Proof.
  revert w. induction refs as [|ref refs IH]; intros w.
  { by exists w. }
  cbn [for_each foldl]. rewrite bind_assoc, bind_gets.
  destruct (documents w !! ref) as [doc|] eqn:Hdoc.
  - rewrite bind_assoc, !bind_modify.
    destruct (IH (set_policies (Store.remove (Document.id doc))
                   (set_documents (alter (detach_or_delete now) ref) w)))
      as (w' & Hrun & Hdocs & Hmem & Hcol).
    exists w'. by rewrite Hrun.
  - rewrite bind_ret.
    destruct (IH w) as (w' & Hrun & Hdocs & Hmem & Hcol).
    exists w'. rewrite Hrun. repeat split; try done.
    rewrite Hdocs. f_equal. apply map_eq. intros k.
    rewrite lookup_alter. case_decide; [subst k|done].
    by rewrite Hdoc.
Qed.

Lemma collections_delete_run (event : WebsocketEntityDeletedEvent) (w : World) :
  ∃ w',
    on_collections_delete now event w = (Normal tt, w')
    ∧ documents w'
      = foldl (λ docs ref, alter (detach_or_delete now) ref docs)
              (documents w) (inCollection (modelId event) (documents w))
    ∧ memberships w'
      = Store.removeAll
          (λ m, bool_decide (Membership.collectionId m = modelId event))
          (memberships w)
    ∧ collections w' = Store.remove (modelId event) (collections w).
Proof.
  unfold on_collections_delete. rewrite bind_gets.
  destruct (detach_loop (inCollection (modelId event) (documents w)) w)
    as (w1 & Hrun & Hdocs & Hmem & Hcol).
  eexists. split.
  { erewrite bind_normal by exact Hrun. rewrite bind_modify. reflexivity. }
  cbn. by rewrite Hdocs, Hmem, Hcol.
Qed.

End CollectionsDelete.

Lemma detach_or_delete_idem (now : string) (d : Document.t) :
  detach_or_delete now (detach_or_delete now d) = detach_or_delete now d.
Proof.
  unfold detach_or_delete.
  by destruct (truthy (Document.publishedAt d)) eqn:Hp; cbn; rewrite Hp.
Qed.

Lemma foldl_alter_lookup {A} (f : A → A) (refs : list string)
  (s : gmap string A) (k : string) :
  (∀ a, f (f a) = f a) →
  foldl (λ s ref, alter f ref s) s refs !! k
  = if decide (k ∈ refs) then f <$> s !! k else s !! k.
Proof.
  intros Hidem. revert s.
  induction refs as [|ref refs IH]; intros s; cbn [foldl].
  { by rewrite decide_False by apply not_elem_of_nil. }
  rewrite IH, lookup_alter.
  destruct (decide (ref = k)) as [->|Hne].
  - rewrite (decide_True (P := k ∈ k :: refs)) by apply list_elem_of_here.
    destruct (decide (k ∈ refs)); [|done].
    destruct (s !! k); cbn; by rewrite ?Hidem.
  - destruct (decide (k ∈ refs)) as [Hin|Hnin].
    + by rewrite (decide_True (P := k ∈ ref :: refs))
        by by apply list_elem_of_further.
    + rewrite (decide_False (P := k ∈ ref :: refs)); [done|].
      rewrite elem_of_cons. by intros [->|?].
Qed.

Lemma elem_of_inCollection (collectionId k : string)
  (docs : gmap string Document.t) :
  k ∈ inCollection collectionId docs
  ↔ ∃ d, docs !! k = Some d ∧ Document.collectionId d = Some collectionId.
Proof.
  unfold inCollection. rewrite list_elem_of_fmap. split.
  - intros ([k' d] & -> & Hin). apply elem_of_map_to_list in Hin.
    apply map_lookup_filter_Some in Hin as [Hk Hc]. by exists d.
  - intros (d & Hk & Hc). exists (k, d). split; [done|].
    apply elem_of_map_to_list. by apply map_lookup_filter_Some.
Qed.


Example collections_delete_on_cache :
  let w' := (on_collections_delete "t9" {| modelId := "c1" |} cache).2 in
  documents w' !! "d1" = Some (Document.set_collectionId None draft)
  ∧ documents w' !! "d2" = Some (Document.set_deletedAt (Some "t9") handbook)
  ∧ memberships w' = ∅
  ∧ collections w' = ∅
  ∧ policies w' !! "c1" = policies cache !! "c1".
Proof. vm_compute. by repeat split. Qed.

(** ** Create followed by delete *)

Lemma never_added_remove_add `{Model A} (p : A) (s : gmap string A) :
  never_added (model_id p) s (Store.remove (model_id p) (Store.add p s)).
Proof. split; [apply remove_add|apply remove_add_fresh]. Qed.

(** C7: for each entity kind with a create and a delete handler (comments,
    groups, pins, stars, subscriptions, collections), running the create
    handler and then the delete handler for the same identifier leaves
    that kind's store as if the entity had never been added. *)
Theorem create_then_delete (now : string) (e : Entity.t) (c : Collection.t)
  (w : World) :
  never_added (Entity.id e) (comments w)
    (comments (after_both (on_comments_create e)
                 (on_comments_delete {| modelId := Entity.id e |}) w))
  ∧ never_added (Entity.id e) (groups w)
      (groups (after_both (on_groups_create e)
                 (on_groups_delete {| modelId := Entity.id e |}) w))
  ∧ never_added (Entity.id e) (pins w)
      (pins (after_both (on_pins_create e)
               (on_pins_delete {| modelId := Entity.id e |}) w))
  ∧ never_added (Entity.id e) (stars w)
      (stars (after_both (on_stars_create e)
                (on_stars_delete {| modelId := Entity.id e |}) w))
  ∧ never_added (Entity.id e) (subscriptions w)
      (subscriptions (after_both (on_subscriptions_create e)
                        (on_subscriptions_delete {| modelId := Entity.id e |}) w))
  ∧ never_added (Collection.id c) (collections w)
      (collections (after_both (on_collections_create c)
                      (on_collections_delete now
                         {| modelId := Collection.id c |}) w)).
Proof.
  split; [exact (never_added_remove_add e (comments w))|].
  split; [exact (never_added_remove_add e (groups w))|].
  split; [exact (never_added_remove_add e (pins w))|].
  split; [exact (never_added_remove_add e (stars w))|].
  split; [exact (never_added_remove_add e (subscriptions w))|].
  unfold after_both, on_collections_create. rewrite bind_modify.
  destruct (collections_delete_run now {| modelId := Collection.id c |}
              (set_collections (Store.add c) w))
    as (w' & Hrun & _ & _ & Hcol).
  rewrite Hrun. cbn [snd]. rewrite Hcol.
  exact (never_added_remove_add c (collections w)).
Qed.

Lemma create_then_delete_witness :
  comments (after_both (on_comments_create hello)
              (on_comments_delete {| modelId := "k1" |}) cache)
  = comments cache.
Proof.
  destruct (create_then_delete "t9" hello engineering cache)
    as ((_ & Hfresh) & _).
  exact (Hfresh eq_refl).
Defined.

(** ** Membership removal and cached policies *)

(** Invalidating the policies of the child documents only removes
    policies; the other stores are left alone. *)
Lemma child_policies_loop (children : list string) (w : World) :
  ∃ w',
    for_each children (λ childDocument,
      modify (set_policies (Store.remove childDocument))) w = (Normal tt, w')
    ∧ documents w' = documents w
    ∧ policies w' ⊆ policies w.
Proof.
  revert w. induction children as [|child children IH]; intros w.
  { by exists w. }
  cbn [for_each]. rewrite bind_modify.
  destruct (IH (set_policies (Store.remove child) w))
    as (w' & Hrun & Hdocs & Hpol).
  exists w'. repeat split; [done|done|].
  etrans; [exact Hpol|]. cbn. apply delete_subseteq.
Qed.

(** C6: [documents.remove_user] either leaves the document store as it
    was, or removes the document of the event and then a policy denying
    read was cached for that document; in particular, with no policy cached
    for the document, the store is left as it was.  The same holds for
    [collections.remove_user] and the collection store. *)
Theorem remove_user_needs_denying_policy (currentUserId : option string)
  (du : UserMembership.t) (cu : Membership.t) (w : World) :
  let documentId := UserMembership.documentId du in
  let collectionId := Membership.collectionId cu in
  let wd := (on_documents_remove_user currentUserId du w).2 in
  let wc := (on_collections_remove_user cu w).2 in
  (documents wd = documents w
   ∨ documents wd = delete documentId (documents w)
     ∧ ∃ p, policies w !! documentId = Some p
            ∧ Policy.read (Policy.abilities p) = false)
  ∧ (policies w !! documentId = None → documents wd = documents w)
  ∧ (collections wc = collections w
     ∨ collections wc = delete collectionId (collections w)
       ∧ ∃ p, policies w !! collectionId = Some p
              ∧ Policy.read (Policy.abilities p) = false)
  ∧ (policies w !! collectionId = None → collections wc = collections w).
Proof.
  intros documentId collectionId wd wc.
  assert (Hd : ∃ w1, documents w1 = documents w ∧ policies w1 ⊆ policies w
      ∧ wd = (match policies w1 !! documentId with
              | Some policy =>
                  if bool_decide (Policy.read (Policy.abilities policy) = false)
                  then set_documents (Store.remove documentId) w1
                  else w1
              | None => w1
              end)).
  { subst wd. unfold on_documents_remove_user.
    rewrite bind_modify.
    set (w0 := set_userMemberships _ w).
    assert (Hloop : ∃ w1,
      (if bool_decide (Some (UserMembership.userId du) = currentUserId)
       then
         document ← gets (λ w,
           Store.get (UserMembership.documentId du) (documents w));
         match document with
         | Some document =>
             for_each (Document.childDocuments document) (λ childDocument,
               modify (set_policies (Store.remove childDocument)))
         | None => mret tt
         end
       else mret tt) w0 = (Normal tt, w1)
      ∧ documents w1 = documents w ∧ policies w1 ⊆ policies w).
    { case_bool_decide; [|by exists w0].
      rewrite bind_gets.
      destruct (Store.get _ _) as [document|]; [|by exists w0].
      destruct (child_policies_loop (Document.childDocuments document) w0)
        as (w1 & Hrun & Hdocs & Hpol).
      by exists w1. }
    destruct Hloop as (w1 & Hrun & Hdocs & Hpol).
    exists w1. split; [done|]. split; [done|].
    erewrite bind_normal by exact Hrun. rewrite bind_gets. clear Hrun.
    unfold Store.get. fold documentId.
    destruct (policies w1 !! documentId) as [policy|]; [|done].
    by case_bool_decide. }
  destruct Hd as (w1 & Hdocs & Hpol & ->).
  assert (Hc : wc = (match policies w !! collectionId with
              | Some policy =>
                  if bool_decide (Policy.read (Policy.abilities policy) = false)
                  then set_collections (Store.remove collectionId)
                         (set_memberships (Store.remove (Membership.id cu)) w)
                  else set_memberships (Store.remove (Membership.id cu)) w
              | None => set_memberships (Store.remove (Membership.id cu)) w
              end)).
  { subst wc. unfold on_collections_remove_user.
    rewrite bind_modify, bind_gets. unfold Store.get. cbn [policies set_memberships].
    fold collectionId.
    destruct (policies w !! collectionId) as [policy|]; [|done].
    by case_bool_decide. }
  rewrite Hc. clear Hc wc.
  split; [|split; [|split]].
  - destruct (policies w1 !! documentId) as [policy|] eqn:Hpolicy; [|by left].
    case_bool_decide as Hread; [|by left].
    right. split; [by rewrite <- Hdocs|].
    exists policy. split; [|done].
    by eapply lookup_weaken.
  - intros Hnone.
    assert (policies w1 !! documentId = None) as ->; [|done].
    by eapply lookup_weaken_None.
  - destruct (policies w !! collectionId) as [policy|] eqn:Hpolicy; [|by left].
    case_bool_decide as Hread; [|by left].
    right. split; [done|]. by exists policy.
  - by intros ->.
Qed.

Example collections_remove_user_on_cache :
  collections
    (on_collections_remove_user
       {| Membership.id := "m1"; Membership.userId := "u1";
          Membership.collectionId := "c1" |} cache).2 = ∅.
Proof. by vm_compute. Qed.

Lemma remove_user_needs_denying_policy_witness :
  documents
    (on_documents_remove_user (Some "u1")
       {| UserMembership.id := "um1"; UserMembership.userId := "u1";
          UserMembership.documentId := "d1" |} cache).2
  = documents cache.
Proof.
  destruct (remove_user_needs_denying_policy (Some "u1")
    {| UserMembership.id := "um1"; UserMembership.userId := "u1";
       UserMembership.documentId := "d1" |}
    {| Membership.id := "m1"; Membership.userId := "u1";
       Membership.collectionId := "c1" |} cache)
    as (_ & Hkept & _).
  exact (Hkept eq_refl).
Defined.

(** ** The entities batch *)

Section Entities.
Variable server : Server.

(** Leaving a loop early, or going through it in two parts, is the same
    as going through the whole list. *)
Lemma for_of_app {S A B} (xs ys : list A) (body : A → B → M S (Control B))
  (b : B) (s : S) :
  for_of (xs ++ ys) body b s
  = match for_of xs body b s with
    | (Normal (Proceed b'), s') => for_of ys body b' s'
    | (Normal Return, s') => (Normal Return, s')
    | (Throw e, s') => (Throw e, s')
    end.
Proof.
  revert b s. induction xs as [|x xs IH]; intros b s; [done|].
  cbn [app for_of]. unfold mbind, M_bind.
  destruct (body x b s) as [[[b'|]|e] s']; [apply IH|done|done].
Qed.

(** *** One document descriptor *)

Lemma document_skipped_current desc event w :
  Document.updatedAt <$> documents w !! Descriptor.id desc
    = Descriptor.updatedAt desc →
  document_iteration server desc event w = (Normal (Proceed event), w).
Proof.
  intros Hcurrent. unfold document_iteration. cbv zeta.
  rewrite bind_gets. unfold Store.get. by rewrite bool_decide_eq_true_2.
Qed.

Lemma document_skipped_missing desc event w :
  documents w !! Descriptor.id desc = None →
  fetchIfMissing event = false →
  document_iteration server desc event w = (Normal (Proceed event), w).
Proof.
  intros Hmissing Hflag. unfold document_iteration. cbv zeta.
  rewrite bind_gets. unfold Store.get. rewrite Hmissing, Hflag. cbn.
  by case_bool_decide.
Qed.

Lemma document_refetched desc event w :
  Document.updatedAt <$> documents w !! Descriptor.id desc
    ≠ Descriptor.updatedAt desc →
  is_Some (documents w !! Descriptor.id desc) ∨ fetchIfMissing event = true →
  let documentId := Descriptor.id desc in
  let w1 := asked (DocumentsInfo documentId) w in
  document_iteration server desc event w
  = match documentsInfo server (requests w) documentId with
    | Normal document =>
        (Normal (Proceed
           (if bool_decide (Document.title <$> documents w !! documentId
                            ≠ Some (Document.title document))
            then with_collection_of document event
            else event)),
         set_documents (Store.add document) w1)
    | Throw err =>
        if instanceof err AuthorizationError || instanceof err NotFoundError
        then (Normal Return, set_documents (Store.remove documentId) w1)
        else (Normal (Proceed event), w1)
    end.
Proof.
  intros Hstale Hwanted id w1. subst w1 id.
  set (id := Descriptor.id desc) in *.
  unfold document_iteration. cbv zeta. fold id.
  rewrite bind_gets. unfold Store.get.
  rewrite bool_decide_eq_false_2 by done.
  assert (negb (present (documents w !! id)) && negb (fetchIfMissing event)
          = false) as ->.
  { destruct Hwanted as [[d ->]| ->]; [done|]. apply andb_false_r. }
  unfold try_catch, mbind, M_bind, documents_fetch.
  fold (asked (DocumentsInfo id) w).
  destruct (documentsInfo server (requests w) id) as [document|err].
  - unfold mret, M_ret. case_bool_decide as Htitle; [|done].
    unfold with_collection_of.
    destruct (collectionIds event) as [listed|] eqn:Hlisted; cbn [default].
    + rewrite Hlisted. cbn [default]. change (Datatypes.id listed) with listed.
      assert (set_collectionIds (Some listed) event = event) as Hsame.
      { destruct event. cbn in *. by subst. }
      destruct (Document.collectionId document) as [c|]; [|by rewrite Hsame].
      destruct (negb _ && _); [done|by rewrite Hsame].
    + cbn [collectionIds set_collectionIds default].
      destruct (Document.collectionId document) as [c|]; [|done].
      by destruct (negb _ && _).
  - destruct (instanceof err AuthorizationError || instanceof err NotFoundError);
      [done|].
    unfold mret, M_ret.
    destruct (documents w !! id) as [d|]; [|done].
    cbn. by rewrite bool_decide_eq_false_2 by naive_solver.
Qed.

(** *** One collection descriptor *)

Lemma collection_skipped_current desc event w :
  collections w !! Descriptor.id desc ≫= Collection.updatedAt
    = Descriptor.updatedAt desc →
  collection_iteration server event desc tt w = (Normal (Proceed tt), w).
Proof.
  intros Hcurrent. unfold collection_iteration. cbv zeta.
  rewrite bind_gets. unfold Store.get. by rewrite bool_decide_eq_true_2.
Qed.

Lemma collection_skipped_unloaded desc event w :
  has_documents (collections w !! Descriptor.id desc) = false →
  fetchIfMissing event = false →
  collection_iteration server event desc tt w = (Normal (Proceed tt), w).
Proof.
  intros Hunloaded Hflag. unfold collection_iteration. cbv zeta.
  rewrite bind_gets. unfold Store.get. rewrite Hunloaded, Hflag. cbn.
  by case_bool_decide.
Qed.

Lemma collection_refetched desc event w c :
  collections w !! Descriptor.id desc = Some c →
  Collection.updatedAt c ≠ Descriptor.updatedAt desc →
  has_documents (Some c) = true ∨ fetchIfMissing event = true →
  let w1 := asked (CollectionsDocuments (Collection.id c)) w in
  collection_iteration server event desc tt w
  = match collectionsDocuments server (requests w) (Collection.id c) with
    | Normal nodes =>
        (Normal (Proceed tt),
         set_collections
           (alter (Collection.set_documents (Some nodes)) (Collection.id c)) w1)
    | Throw err =>
        if instanceof err AuthorizationError || instanceof err NotFoundError
        then (Normal Return, evict_collection (Descriptor.id desc) w1)
        else (Normal (Proceed tt), w1)
    end.
Proof.
  intros Hcached Hstale Hwanted w1. subst w1.
  unfold collection_iteration. cbv zeta.
  rewrite bind_gets. unfold Store.get. rewrite Hcached. cbn [mbind option_bind].
  rewrite bool_decide_eq_false_2 by done.
  assert (negb (has_documents (Some c)) && negb (fetchIfMissing event) = false)
    as ->.
  { destruct Hwanted as [-> | ->]; [done|apply andb_false_r]. }
  unfold try_catch, mbind, M_bind, fetchDocuments. cbv zeta.
  fold (asked (CollectionsDocuments (Collection.id c)) w).
  destruct (collectionsDocuments server (requests w) (Collection.id c))
    as [nodes|err]; [done|].
  by destruct (instanceof err AuthorizationError || instanceof err NotFoundError).
Qed.

(** A collection that is not cached is never fetched by this loop, also
    when the event asks to fetch what is missing. *)
Lemma collection_absent_untouched desc event w :
  collections w !! Descriptor.id desc = None →
  collection_iteration server event desc tt w = (Normal (Proceed tt), w).
Proof.
  intros Habsent. unfold collection_iteration. cbv zeta.
  rewrite bind_gets. unfold Store.get. rewrite Habsent. cbn [mbind option_bind].
  case_bool_decide; [done|].
  by destruct (negb (has_documents None) && negb (fetchIfMissing event)).
Qed.

Lemma find_id_None (listed : list Descriptor.t) (c : string) :
  find_id listed (Some c) = None ↔ c ∉ Descriptor.id <$> listed.
Proof.
  unfold find_id. induction listed as [|x listed IH]; cbn.
  { split; [intros _; apply not_elem_of_nil|done]. }
  rewrite not_elem_of_cons. case_bool_decide as Hx.
  - split; [done|]. intros [Hne _]. congruence.
  - rewrite IH. split; [|by intros [_ ?]]. intros Hrest. split; [|done].
    congruence.
Qed.

(** *** Claims about the batch *)

(** C2: a document descriptor whose [updatedAt] is the one of the cached
    record is skipped: the iteration completes without any request, leaves
    every store and the event as they were, and the loop goes on with the
    descriptors after it. *)
Theorem current_document_skipped (desc : Descriptor.t) (d : Document.t)
  (rest : list Descriptor.t) (event : WebsocketEntitiesEvent) (w : World)
  (Hcached : documents w !! Descriptor.id desc = Some d)
  (Hsame : Descriptor.updatedAt desc = Some (Document.updatedAt d)) :
  document_iteration server desc event w = (Normal (Proceed event), w)
  ∧ for_of (desc :: rest) (document_iteration server) event w
    = for_of rest (document_iteration server) event w.
Proof.
  assert (document_iteration server desc event w = (Normal (Proceed event), w))
    as Hskip.
  { apply document_skipped_current. by rewrite Hcached, Hsame. }
  split; [done|].
  cbn [for_of]. by erewrite bind_normal by exact Hskip.
Qed.

(** The loop over the document descriptors never reads the list it goes
    through from the event: with another list in [documentIds], an
    iteration does the same and leaves that list in place. *)
Lemma document_iteration_documentIds v desc event w :
  document_iteration server desc (set_documentIds v event) w
  = match document_iteration server desc event w with
    | (Normal (Proceed event'), w') =>
        (Normal (Proceed (set_documentIds v event')), w')
    | (Normal Return, w') => (Normal Return, w')
    | (Throw e, w') => (Throw e, w')
    end.
Proof.
  unfold document_iteration. cbv zeta. rewrite !bind_gets.
  cbn [fetchIfMissing collectionIds set_documentIds].
  case_bool_decide; [done|].
  destruct (negb (present (Store.get (Descriptor.id desc) (documents w)))
            && negb (fetchIfMissing event)); [done|].
  unfold try_catch, mbind, M_bind, documents_fetch.
  destruct (documentsInfo server (requests w) (Descriptor.id desc))
    as [document|err].
  - unfold mret, M_ret. case_bool_decide; [|done].
    cbn [collectionIds set_documentIds].
    destruct (collectionIds event) as [cs|];
      cbn [collectionIds set_documentIds set_collectionIds default
           fetchIfMissing documentIds];
      destruct (Document.collectionId document) as [c|]; try done.
    all: by destruct (negb _ && _).
  - destruct (instanceof err AuthorizationError || instanceof err NotFoundError);
      [done|].
    unfold mret, M_ret.
    destruct (Store.get (Descriptor.id desc) (documents w)) as [d|]; [|done].
    case_bool_decide; [|done].
    cbn [collectionIds set_documentIds].
    destruct (collectionIds event) as [cs|];
      cbn [collectionIds set_documentIds set_collectionIds default
           fetchIfMissing documentIds];
      destruct (Document.collectionId d) as [c|]; try done.
    all: by destruct (negb _ && _).
Qed.

Lemma document_loop_documentIds v ds event w :
  for_of ds (document_iteration server) (set_documentIds v event) w
  = match for_of ds (document_iteration server) event w with
    | (Normal (Proceed event'), w') =>
        (Normal (Proceed (set_documentIds v event')), w')
    | (Normal Return, w') => (Normal Return, w')
    | (Throw e, w') => (Throw e, w')
    end.
Proof.
  revert event w. induction ds as [|desc ds IH]; intros event w; [done|].
  cbn [for_of]. unfold mbind, M_bind.
  rewrite document_iteration_documentIds.
  destruct (document_iteration server desc event w) as [[[event'|]|e] w'];
    [apply IH|done|done].
Qed.

(** An iteration of the loop over the collection descriptors reads
    nothing of the event but [fetchIfMissing]. *)
Lemma collection_iteration_flag event event' desc (u : unit) w :
  fetchIfMissing event' = fetchIfMissing event →
  collection_iteration server event' desc u w
  = collection_iteration server event desc u w.
Proof. intros Hflag. unfold collection_iteration. by rewrite Hflag. Qed.

Lemma collection_loop_flag event event' ds (u : unit) w :
  fetchIfMissing event' = fetchIfMissing event →
  for_of ds (collection_iteration server event') u w
  = for_of ds (collection_iteration server event) u w.
Proof.
  intros Hflag. revert u w. induction ds as [|desc ds IH]; intros u w; [done|].
  cbn [for_of]. unfold mbind, M_bind.
  rewrite (collection_iteration_flag event event') by done.
  destruct (collection_iteration server event desc u w) as [[[u'|]|e] w'];
    [apply IH|done|done].
Qed.

(** What an iteration for a document descriptor does to the stores, and
    whether it ends the handler, depends on the event through
    [fetchIfMissing] only: the collection descriptors listed decide nothing
    but the collection descriptors listed afterwards. *)
Lemma document_iteration_collections desc event event' w :
  fetchIfMissing event' = fetchIfMissing event →
  match document_iteration server desc event w,
        document_iteration server desc event' w with
  | (Normal (Proceed e1), w1), (Normal (Proceed e2), w2) =>
      w2 = w1 ∧ fetchIfMissing e2 = fetchIfMissing e1
  | (Normal Return, w1), (Normal Return, w2) => w2 = w1
  | (Throw err1, w1), (Throw err2, w2) => err2 = err1 ∧ w2 = w1
  | _, _ => False
  end.
Proof.
  intros Hflag. unfold document_iteration. cbv zeta. rewrite !bind_gets, Hflag.
  case_bool_decide; [done|].
  destruct (negb (present (Store.get (Descriptor.id desc) (documents w)))
            && negb (fetchIfMissing event)); [done|].
  unfold try_catch, mbind, M_bind, documents_fetch.
  destruct (documentsInfo server (requests w) (Descriptor.id desc))
    as [document|err].
  - unfold mret, M_ret. case_bool_decide; [|done].
    destruct (collectionIds event) as [cs|], (collectionIds event') as [cs'|];
      cbn [collectionIds set_collectionIds default fetchIfMissing documentIds];
      destruct (Document.collectionId document) as [c|]; try done.
    all: by repeat match goal with
                   | |- context [negb ?a && ?b] => destruct (negb a && b)
                   end.
  - destruct (instanceof err AuthorizationError || instanceof err NotFoundError);
      [done|].
    unfold mret, M_ret.
    destruct (Store.get (Descriptor.id desc) (documents w)) as [d|]; [|done].
    case_bool_decide; [|done].
    destruct (collectionIds event) as [cs|], (collectionIds event') as [cs'|];
      cbn [collectionIds set_collectionIds default fetchIfMissing documentIds];
      destruct (Document.collectionId d) as [c|]; try done.
    all: by repeat match goal with
                   | |- context [negb ?a && ?b] => destruct (negb a && b)
                   end.
Qed.

Lemma document_loop_collections ds event event' w :
  fetchIfMissing event' = fetchIfMissing event →
  match for_of ds (document_iteration server) event w,
        for_of ds (document_iteration server) event' w with
  | (Normal (Proceed e1), w1), (Normal (Proceed e2), w2) =>
      w2 = w1 ∧ fetchIfMissing e2 = fetchIfMissing e1
  | (Normal Return, w1), (Normal Return, w2) => w2 = w1
  | (Throw err1, w1), (Throw err2, w2) => err2 = err1 ∧ w2 = w1
  | _, _ => False
  end.
Proof.
  revert event event' w.
  induction ds as [|desc ds IH]; intros event event' w Hflag; [done|].
  cbn [for_of]. unfold mbind, M_bind.
  pose proof (document_iteration_collections desc event event' w Hflag)
    as Hstep.
  destruct (document_iteration server desc event w) as [[[e1|]|err1] w1],
           (document_iteration server desc event' w) as [[[e2|]|err2] w2];
    try done.
  destruct Hstep as [-> Hflag']. by apply IH.
Qed.

(** C1, as the handler has it: when the loop over the document
    descriptors reaches a descriptor whose refetch is refused with
    AuthorizationError or NotFoundError, the handler ends there: the document is removed from its store, and nothing
    else happens, whatever descriptors (of documents or of collections)
    come after it.  What is done for the document descriptors up to a
    given one is the same whether or not further document descriptors
    follow in the batch; and what is done for the collection descriptors up
    to a given one is the same whether or not further collection
    descriptors are listed: of the event, the loop over them reads
    [fetchIfMissing] only, and the stores it starts from, left by the loop
    over the document descriptors, are the same whatever collection
    descriptors are listed. *)
Theorem refused_document_aborts_batch :
  (∀ (event event1 : WebsocketEntitiesEvent)
     (before after : list Descriptor.t) (desc : Descriptor.t) (err : Error)
     (w w1 : World),
     documentIds event = Some (before ++ desc :: after) →
     for_of before (document_iteration server) event w
       = (Normal (Proceed event1), w1) →
     Document.updatedAt <$> documents w1 !! Descriptor.id desc
       ≠ Descriptor.updatedAt desc →
     is_Some (documents w1 !! Descriptor.id desc)
       ∨ fetchIfMissing event1 = true →
     documentsInfo server (requests w1) (Descriptor.id desc) = Throw err →
     errorClass err = AuthorizationError ∨ errorClass err = NotFoundError →
     on_entities server event w
       = (Normal tt,
          set_documents (Store.remove (Descriptor.id desc))
            (asked (DocumentsInfo (Descriptor.id desc)) w1))
     ∧ documents (on_entities server event w).2 !! Descriptor.id desc = None)
  ∧ (∀ (xs ys : list Descriptor.t) (event : WebsocketEntitiesEvent)
       (w : World),
       document_phase server (set_documentIds (Some (xs ++ ys)) event) w
       = match document_phase server (set_documentIds (Some xs) event) w with
         | (Normal (Proceed event'), w') =>
             for_of ys (document_iteration server)
               (set_documentIds (Some (xs ++ ys)) event') w'
         | (Normal Return, w') => (Normal Return, w')
         | (Throw e, w') => (Throw e, w')
         end)
  ∧ (∀ (xs ys : list Descriptor.t) (event event' : WebsocketEntitiesEvent)
       (w : World),
       fetchIfMissing event' = fetchIfMissing event →
       for_of (xs ++ ys) (collection_iteration server event) tt w
       = match for_of xs (collection_iteration server event') tt w with
         | (Normal (Proceed _), w') =>
             for_of ys (collection_iteration server event) tt w'
         | (Normal Return, w') => (Normal Return, w')
         | (Throw e, w') => (Throw e, w')
         end)
  ∧ (∀ (cols cols' : option (list Descriptor.t))
       (event : WebsocketEntitiesEvent) (w : World),
       match document_phase server (set_collectionIds cols event) w,
             document_phase server (set_collectionIds cols' event) w with
       | (Normal (Proceed e1), w1), (Normal (Proceed e2), w2) =>
           w2 = w1 ∧ fetchIfMissing e2 = fetchIfMissing e1
       | (Normal Return, w1), (Normal Return, w2) => w2 = w1
       | (Throw err1, w1), (Throw err2, w2) => err2 = err1 ∧ w2 = w1
       | _, _ => False
       end).
Proof.
  split; [|split; [|split]].
  - intros event event1 before after desc err w w1
      Hbatch Hbefore Hstale Hwanted Hrefused Hclass.
    assert (on_entities server event w
            = (Normal tt,
               set_documents (Store.remove (Descriptor.id desc))
                 (asked (DocumentsInfo (Descriptor.id desc)) w1))) as Hrun.
    { unfold on_entities. rewrite Hbatch.
      unfold mbind at 1, M_bind at 1.
      rewrite for_of_app, Hbefore. cbn [for_of].
      unfold mbind at 1, M_bind at 1.
      rewrite document_refetched by done. cbv zeta. rewrite Hrefused.
      unfold instanceof.
      destruct Hclass as [-> | ->]; by cbn. }
    split; [done|]. rewrite Hrun. cbn. apply lookup_delete_eq.
  - intros xs ys event w. unfold document_phase.
    cbn [documentIds set_documentIds].
    rewrite for_of_app, !document_loop_documentIds.
    destruct (for_of xs (document_iteration server) event w)
      as [[[event'|]|e] w']; done.
  - intros xs ys event event' w Hflag.
    rewrite for_of_app, (collection_loop_flag event event') by done.
    by destruct (for_of xs _ _ _) as [[[[]|]|e] w'].
  - intros cols cols' event w. unfold document_phase.
    cbn [documentIds set_collectionIds].
    destruct (documentIds event) as [ds|]; [|done].
    by apply document_loop_collections.
Qed.

(** C3: when the refetch of a document descriptor succeeds and the title
    of the fetched document is not the title cached before (no title was
    cached for a document that was not cached), a descriptor for the
    collection of the fetched document is appended to the collection list
    of the event if the document has a collection and no listed descriptor
    carries its identifier; the list is left as it was if the document has
    no collection (no identifier, or an empty one) or a descriptor with
    that identifier is already listed. *)
Theorem title_change_adds_collection (desc : Descriptor.t)
  (event : WebsocketEntitiesEvent) (w : World) (document : Document.t)
  (Hstale : Document.updatedAt <$> documents w !! Descriptor.id desc
            ≠ Descriptor.updatedAt desc)
  (Hwanted : is_Some (documents w !! Descriptor.id desc)
             ∨ fetchIfMissing event = true)
  (Hfetched : documentsInfo server (requests w) (Descriptor.id desc)
              = Normal document)
  (Htitle : Document.title <$> documents w !! Descriptor.id desc
            ≠ Some (Document.title document)) :
  ∃ event',
    document_iteration server desc event w
    = (Normal (Proceed event'),
       set_documents (Store.add document)
         (asked (DocumentsInfo (Descriptor.id desc)) w))
    ∧ (∀ c, Document.collectionId document = Some c →
            c ≠ "" →
            c ∉ Descriptor.id <$> default [] (collectionIds event) →
            default [] (collectionIds event')
            = default [] (collectionIds event)
              ++ [{| Descriptor.id := c; Descriptor.updatedAt := None |}])
    ∧ (Document.collectionId document = None
       ∨ Document.collectionId document = Some ""
       ∨ (∃ c, Document.collectionId document = Some c
               ∧ c ∈ Descriptor.id <$> default [] (collectionIds event)) →
       default [] (collectionIds event') = default [] (collectionIds event)).
Proof.
  exists (with_collection_of document event). split.
  { rewrite document_refetched by done. cbv zeta. rewrite Hfetched.
    by rewrite bool_decide_eq_true_2. }
  unfold with_collection_of. split.
  - intros c -> Hne Hnew. apply find_id_None in Hnew. rewrite Hnew. cbn.
    by rewrite bool_decide_eq_false_2.
  - intros [-> | [-> | (c & -> & Hlisted)]]; [done|..].
    { cbn. by rewrite andb_false_r. }
    destruct (find_id _ (Some c)) as [found|] eqn:Hfind; [done|].
    by apply find_id_None in Hfind.
Qed.

(** C9: a refetch that fails with an error that is neither an
    AuthorizationError nor a NotFoundError changes nothing but the log of
    requests: the iteration completes normally, the stores and the notices
    are as before, the event has no new collection descriptor, and the loop
    goes on with the descriptors after it.  This holds for a document
    descriptor and for a collection descriptor. *)
Theorem other_refetch_errors_swallowed (err : Error)
  (Hother : errorClass err ≠ AuthorizationError
            ∧ errorClass err ≠ NotFoundError) :
  (∀ desc rest event w,
     Document.updatedAt <$> documents w !! Descriptor.id desc
       ≠ Descriptor.updatedAt desc →
     is_Some (documents w !! Descriptor.id desc)
       ∨ fetchIfMissing event = true →
     documentsInfo server (requests w) (Descriptor.id desc) = Throw err →
     let w1 := asked (DocumentsInfo (Descriptor.id desc)) w in
     document_iteration server desc event w = (Normal (Proceed event), w1)
     ∧ for_of (desc :: rest) (document_iteration server) event w
       = for_of rest (document_iteration server) event w1)
  ∧ (∀ desc rest event c w,
       collections w !! Descriptor.id desc = Some c →
       Collection.updatedAt c ≠ Descriptor.updatedAt desc →
       has_documents (Some c) = true ∨ fetchIfMissing event = true →
       collectionsDocuments server (requests w) (Collection.id c) = Throw err →
       let w1 := asked (CollectionsDocuments (Collection.id c)) w in
       collection_iteration server event desc tt w = (Normal (Proceed tt), w1)
       ∧ for_of (desc :: rest) (collection_iteration server event) tt w
         = for_of rest (collection_iteration server event) tt w1).
Proof.
  destruct Hother as [Hauth Hmissing].
  assert (instanceof err AuthorizationError || instanceof err NotFoundError
          = false) as Hclass.
  { unfold instanceof. by rewrite !bool_decide_eq_false_2. }
  split.
  - intros desc rest event w Hstale Hwanted Hfails w1.
    assert (document_iteration server desc event w = (Normal (Proceed event), w1))
      as Hstep.
    { rewrite document_refetched by done. cbv zeta.
      by rewrite Hfails, Hclass. }
    split; [done|]. cbn [for_of]. by erewrite bind_normal by exact Hstep.
  - intros desc rest event c w Hcached Hstale Hwanted Hfails w1.
    assert (collection_iteration server event desc tt w
            = (Normal (Proceed tt), w1)) as Hstep.
    { erewrite collection_refetched by done. cbv zeta.
      by rewrite Hfails, Hclass. }
    split; [done|]. cbn [for_of]. by erewrite bind_normal by exact Hstep.
Qed.


End Entities.

(** ** The handlers at work *)

Lemma current_document_skipped_witness :
  document_iteration refusing (stamp "d1" "t0") (batch [stamp "d1" "t0"] [] true)
    cache
  = (Normal (Proceed (batch [stamp "d1" "t0"] [] true)), cache).
Proof.
  exact (proj1 (current_document_skipped refusing (stamp "d1" "t0") draft []
                  (batch [stamp "d1" "t0"] [] true) cache eq_refl eq_refl)).
Defined.

Lemma refused_document_aborts_batch_witness :
  on_entities refusing
    (batch [stamp "d1" "t1"; stamp "d2" "t1"] [stamp "c1" "t1"] false) cache
  = (Normal tt,
     set_documents (Store.remove "d1") (asked (DocumentsInfo "d1") cache)).
Proof.
  refine (proj1 (proj1 (refused_document_aborts_batch refusing)
    (batch [stamp "d1" "t1"; stamp "d2" "t1"] [stamp "c1" "t1"] false)
    (batch [stamp "d1" "t1"; stamp "d2" "t1"] [stamp "c1" "t1"] false)
    [] [stamp "d2" "t1"] (stamp "d1" "t1") forbidden cache cache
    eq_refl eq_refl _ _ eq_refl _)).
  - vm_compute. discriminate.
  - left. exists draft. reflexivity.
  - left. reflexivity.
Defined.

(** C1, as worded in the design document, fails where it says that a
    processed descriptor does not depend on the descriptors after it: with
    collection "c1" cached and its document list loaded, the batch of the
    renamed document "d1" alone asks for the document and then for the
    collection, while the same batch followed by an up-to-date descriptor
    of "c1" asks for the document only: what the document descriptor
    brings about depends on a collection descriptor after it. *)
Lemma later_descriptor_counterexample :
  ¬ later_descriptors_ignored answering loaded_cache
      [stamp "d1" "t1"] [] [stamp "c1" "t0"] false.
Proof.
  unfold later_descriptors_ignored. vm_compute.
  intros [rest Hrest]. discriminate.
Qed.

Example later_descriptor_on_loaded_cache :
  requests (on_entities answering (batch [stamp "d1" "t1"] [] false)
              loaded_cache).2
  = [DocumentsInfo "d1"; CollectionsDocuments "c1"]
  ∧ requests (on_entities answering
                (batch [stamp "d1" "t1"] [stamp "c1" "t0"] false)
                loaded_cache).2
    = [DocumentsInfo "d1"].
Proof. by vm_compute. Qed.

Example inaccessible_document_on_cache :
  let w' := (on_entities refusing
    (batch [stamp "d1" "t1"; stamp "d2" "t1"] [stamp "c1" "t1"] false) cache).2 in
  documents w' = {[ "d2" := handbook ]}
  ∧ collections w' = collections cache
  ∧ memberships w' = memberships cache
  ∧ requests w' = [DocumentsInfo "d1"]
  ∧ toasts w' = [].
Proof. vm_compute. by repeat split. Qed.

Lemma title_change_adds_collection_witness :
  ∃ event',
    document_iteration answering (stamp "d1" "t0") first_sight world0
    = (Normal (Proceed event'),
       set_documents (Store.add renamed) (asked (DocumentsInfo "d1") world0))
    ∧ default [] (collectionIds event')
      = [{| Descriptor.id := "c1"; Descriptor.updatedAt := None |}].
Proof.
  destruct (title_change_adds_collection answering (stamp "d1" "t0")
              first_sight world0 renamed)
    as (event' & Hrun & Hadded & _).
  - vm_compute. discriminate.
  - right. reflexivity.
  - reflexivity.
  - vm_compute. discriminate.
  - exists event'. split; [exact Hrun|].
    apply (Hadded "c1" eq_refl).
    + discriminate.
    + apply not_elem_of_nil.
Defined.

Example first_sight_on_empty_client :
  let w' := (on_entities answering first_sight world0).2 in
  documents w' = {[ "d1" := renamed ]}
  ∧ requests w' = [DocumentsInfo "d1"].
Proof. vm_compute. by repeat split. Qed.

(** With the collection cached, the synthesised descriptor makes the
    collection loop refresh its document list. *)
Example renamed_document_refreshes_collection :
  let w' := (on_entities answering
               (batch [stamp "d1" "t1"] [] false)
               (set_collections (λ _, {[ "c1" :=
                  Collection.set_documents
                    (Some [{| nodeId := "d2"; nodeTitle := "Handbook" |}])
                    engineering ]}) cache)).2 in
  requests w' = [DocumentsInfo "d1"; CollectionsDocuments "c1"]
  ∧ documents w' !! "d1" = Some renamed.
Proof. vm_compute. by repeat split. Qed.

Lemma other_refetch_errors_swallowed_witness :
  for_of [stamp "d1" "t1"; stamp "d2" "t0"] (document_iteration unreachable)
    (batch [stamp "d1" "t1"; stamp "d2" "t0"] [] false) cache
  = for_of [stamp "d2" "t0"] (document_iteration unreachable)
      (batch [stamp "d1" "t1"; stamp "d2" "t0"] [] false)
      (asked (DocumentsInfo "d1") cache).
Proof.
  destruct (other_refetch_errors_swallowed unreachable offline) as [Hdoc _].
  - split; discriminate.
  - refine (proj2 (Hdoc (stamp "d1" "t1") [stamp "d2" "t0"]
      (batch [stamp "d1" "t1"; stamp "d2" "t0"] [] false) cache _ _ eq_refl)).
    + vm_compute. discriminate.
    + left. exists draft. reflexivity.
Defined.

Example unreachable_source_on_cache :
  on_entities unreachable
    (batch [stamp "d1" "t1"; stamp "d2" "t1"] [] true) cache
  = (Normal tt,
     asked (DocumentsInfo "d2") (asked (DocumentsInfo "d1") cache)).
Proof. by vm_compute. Qed.

(** A collection that is not cached is not fetched, also when the event
    asks to fetch what is missing. *)
Example absent_collection_not_fetched :
  on_entities answering
    {| documentIds := None; collectionIds := Some [stamp "c1" "t1"];
       fetchIfMissing := true |} world0
  = (Normal tt, world0).
Proof. by vm_compute. Qed.

(** * Further properties *)

(** ** The filter menu *)

Section FilterMenu.
Variable toLowerCase : string → string.
Variable t : string → string.

Lemma handleFilter_with_search props value find more shown :
  value ≠ "" →
  FilterOptions.search props = Some find →
  find value = Normal more →
  FilterOptions.handleFilter toLowerCase props value shown
  = (Normal tt,
     filter (λ item, FilterOptions.key item
                     ∉ FilterOptions.key
                       <$> FilterOptions.local_matches toLowerCase props value)
            more
     ++ FilterOptions.local_matches toLowerCase props value).
Proof.
  intros Hvalue Hsearch Hmore. unfold FilterOptions.handleFilter.
  cbn [truthy]. rewrite bool_decide_eq_false_2 by done. cbn [negb].
  rewrite Hsearch. cbv zeta. unfold mbind, M_bind. by rewrite Hmore.
Qed.

(** X1: when the options have pairwise distinct keys and so have the
    search results, the list put on display after a non-empty query has
    pairwise distinct keys: a search result that is already matched locally
    is not shown twice. *)
Theorem filter_keys_distinct props value find more shown
  (Hvalue : value ≠ "")
  (Hsearch : FilterOptions.search props = Some find)
  (Hmore : find value = Normal more)
  (Hoptions : NoDup (FilterOptions.key <$> FilterOptions.options props))
  (Hresults : NoDup (FilterOptions.key <$> more)) :
  ∃ shown',
    FilterOptions.handleFilter toLowerCase props value shown
    = (Normal tt, shown')
    ∧ NoDup (FilterOptions.key <$> shown').
Proof.
  eexists. split; [by eapply handleFilter_with_search|].
  rewrite fmap_app. apply NoDup_app. split; [|split].
  - eapply sublist_NoDup; [exact Hresults|].
    apply fmap_sublist, sublist_filter.
  - intros k (item & -> & Hitem)%list_elem_of_fmap.
    by apply list_elem_of_filter in Hitem as [Hnew _].
  - eapply sublist_NoDup; [exact Hoptions|].
    apply fmap_sublist, sublist_filter.
Qed.


(** X3: an empty query puts all the options back on display, with or
    without a search function; a search that rejects makes [handleFilter]
    reject with the same error and leaves the list on display as it
    was. *)
Theorem filter_cleared_or_failed props shown :
  FilterOptions.handleFilter toLowerCase props "" shown
  = (Normal tt, FilterOptions.options props)
  ∧ (∀ value find err,
       value ≠ "" →
       FilterOptions.search props = Some find →
       find value = Throw err →
       FilterOptions.handleFilter toLowerCase props value shown
       = (Throw err, shown)).
Proof.
  split; [done|].
  intros value find err Hvalue Hsearch Hfails.
  unfold FilterOptions.handleFilter.
  cbn [truthy]. rewrite bool_decide_eq_false_2 by done. cbn [negb].
  rewrite Hsearch. cbv zeta. unfold mbind, M_bind. by rewrite Hfails.
Qed.

(** X4: the button shows the default label (the given one, or the
    translated "Filter options") exactly when the active key is undefined,
    null or empty.  Otherwise it shows the prefix, a space and the label of
    the first option carrying the active key; when no option carries it,
    the label of the first option stands in, and with no option at all the
    button is empty. *)
Theorem button_text_cases props :
  let fallback :=
    default (t "Filter options") (FilterOptions.defaultLabel props) in
  let shown_for option :=
    default "" (FilterOptions.selectedPrefix props) +:+ " "
    +:+ FilterOptions.label option in
  (FilterOptions.activeKey props = FilterOptions.Undefined
   ∨ FilterOptions.activeKey props = FilterOptions.Null
   ∨ FilterOptions.activeKey props = FilterOptions.Str "" →
   FilterOptions.buttonText t props = fallback)
  ∧ (∀ k, FilterOptions.activeKey props = FilterOptions.Str k → k ≠ "" →
       (∀ before option after,
          FilterOptions.options props = before ++ option :: after →
          FilterOptions.key option = k →
          k ∉ FilterOptions.key <$> before →
          FilterOptions.buttonText t props = shown_for option)
       ∧ (k ∉ FilterOptions.key <$> FilterOptions.options props →
          FilterOptions.buttonText t props
          = match FilterOptions.options props with
            | first :: _ => shown_for first
            | [] => ""
            end)).
Proof.
  intros fallback shown_for. unfold FilterOptions.buttonText. split.
  { unfold FilterOptions.activeKey_or_default.
    by intros [-> | [-> | ->]]. }
  intros k Hkey Hk. unfold FilterOptions.activeKey_or_default. rewrite Hkey.
  cbn [truthy]. rewrite bool_decide_eq_false_2 by done. cbn [negb].
  unfold FilterOptions.selectedLabel, FilterOptions.selected,
    FilterOptions.activeKey_or_default. rewrite Hkey.
  split.
  - intros before option after -> Hoption Hfirst.
    assert (List.find (λ o, bool_decide (Some (FilterOptions.key o) = Some k))
              (before ++ option :: after) = Some option) as ->; [|done].
    induction before as [|o before IH]; cbn.
    { by rewrite bool_decide_eq_true_2 by congruence. }
    rewrite fmap_cons, not_elem_of_cons in Hfirst.
    destruct Hfirst as [Hne Hfirst].
    rewrite bool_decide_eq_false_2 by congruence. by apply IH.
  - intros Hnone.
    assert (List.find (λ o, bool_decide (Some (FilterOptions.key o) = Some k))
              (FilterOptions.options props) = None) as ->.
    { induction (FilterOptions.options props) as [|o os IH]; [done|]. cbn.
      rewrite fmap_cons, not_elem_of_cons in Hnone.
      destruct Hnone as [Hne Hnone].
      rewrite bool_decide_eq_false_2 by congruence. by apply IH. }
    by destruct (FilterOptions.options props).
Qed.

End FilterMenu.

Lemma filter_keys_distinct_witness :
  ∃ shown',
    FilterOptions.handleFilter lower_ascii authors "bo" [] = (Normal tt, shown')
    ∧ NoDup (FilterOptions.key <$> shown').
Proof.
  apply (filter_keys_distinct lower_ascii authors "bo" directory
           [author "u2" "Bob (remote)"; author "u3" "Bobby"] []).
  - discriminate.
  - reflexivity.
  - reflexivity.
  - apply (bool_decide_unpack _). by vm_compute.
  - apply (bool_decide_unpack _). by vm_compute.
Defined.

Example filter_bo_on_authors :
  FilterOptions.handleFilter lower_ascii authors "BO" []
  = (Normal tt, [author "u3" "Bobby"; author "u2" "Bob"]).
Proof. reflexivity. Qed.


Lemma filter_cleared_or_failed_witness :
  FilterOptions.handleFilter lower_ascii authors "" [author "u3" "Bobby"]
  = (Normal tt, [author "u1" "Alice"; author "u2" "Bob"]).
Proof.
  exact (proj1 (filter_cleared_or_failed lower_ascii authors
                  [author "u3" "Bobby"])).
Defined.

Lemma button_text_cases_witness :
  FilterOptions.buttonText (λ s, s) authors = "Author: Alice".
Proof.
  destruct (button_text_cases (λ s, s) authors) as [_ Hactive].
  destruct (Hactive "u9" eq_refl) as [_ Hstale]; [discriminate|].
  apply Hstale. apply (bool_decide_unpack _). by vm_compute.
Defined.

(** ** Policy invalidation *)

Lemma evict_loop {A} (f : A → string) (xs : list A) (w : World) :
  for_each xs (λ x, modify (set_policies (Store.remove (f x)))) w
  = (Normal tt,
     set_policies (λ ps, foldl (λ ps x, delete (f x) ps) ps xs) w).
Proof.
  revert w. induction xs as [|x xs IH]; intros w.
  { by destruct w. }
  cbn [for_each foldl]. by rewrite bind_modify, IH.
Qed.

Lemma foldl_delete_lookup {A B} (f : A → string) (xs : list A)
  (ps : gmap string B) (k : string) :
  foldl (λ ps x, delete (f x) ps) ps xs !! k
  = if decide (k ∈ f <$> xs) then None else ps !! k.
Proof.
  revert ps. induction xs as [|x xs IH]; intros ps; cbn [foldl].
  { rewrite decide_False; [done|]. apply not_elem_of_nil. }
  rewrite IH, fmap_cons.
  destruct (decide (k ∈ f <$> xs)) as [Hin|Hnin].
  - by rewrite decide_True by by apply list_elem_of_further.
  - destruct (decide (k = f x)) as [->|Hne].
    + rewrite decide_True by apply list_elem_of_here.
      apply lookup_delete_eq.
    + rewrite decide_False by (rewrite elem_of_cons; by intros [?|?]).
      by apply lookup_delete_ne.
Qed.


Lemma in_world_run {A} (m : M World A) (p : Provider) r w :
  m (world p) = (r, w) → in_world m p = (r, set_world (λ _, w) p).
Proof. intros Hrun. unfold in_world. by rewrite Hrun. Qed.

(** X8: [teams.update] never throws and never touches the document
    store.  When the event carries a [sharing] value different from the
    one of the session's team (or there is no team), afterwards no cached
    document has a cached policy; when the event carries no [sharing]
    value, or the same one, the policies are left as they were. *)
Theorem sharing_change_evicts_policies (event : Team.t) (p : Provider) :
  let p' := (on_teams_update event p).2 in
  (on_teams_update event p).1 = Normal tt
  ∧ documents (world p') = documents (world p)
  ∧ (∀ sharing,
       Team.sharing event = Some sharing →
       Some sharing ≠ team p ≫= Team.sharing →
       ∀ k d, documents (world p) !! k = Some d →
              policies (world p') !! Document.id d = None)
  ∧ (Team.sharing event = None
     ∨ Team.sharing event = team p ≫= Team.sharing →
     policies (world p') = policies (world p)).
Proof.
  cbv zeta. unfold on_teams_update. rewrite bind_gets.
  destruct (Team.sharing event) as [sharing|] eqn:Hevent.
  - case_bool_decide as Hchanged.
    + rewrite bind_assoc, bind_gets.
      erewrite bind_normal by apply in_world_run, evict_loop.
      cbn.
      split; [done|]. split; [done|]. split.
      * intros ? [= <-] _ k d Hd. rewrite foldl_delete_lookup.
        rewrite decide_True; [done|].
        apply list_elem_of_fmap_2. unfold all.
        apply list_elem_of_fmap. exists (k, d). split; [done|].
        by apply elem_of_map_to_list.
      * intros [?|Hsame]; [done|by destruct Hchanged].
    + cbn. split; [done|]. split; [done|]. split; [|done].
      intros ? [= <-] Hne. by destruct Hchanged.
  - cbn. split; [done|]. split; [done|]. split; [|done]. by intros.
Qed.

Lemma sharing_change_evicts_policies_witness :
  policies
    (world (on_teams_update
              {| Team.id := "t1"; Team.sharing := Some false;
                 Team.domain := None |}
              (set_world (set_policies (λ _, {[ "d1" :=
                 {| Policy.id := "d1";
                    Policy.abilities := {| Policy.read := true |} |} ]}))
                 provider0)).2)
  !! "d1" = None.
Proof.
  destruct (sharing_change_evicts_policies
              {| Team.id := "t1"; Team.sharing := Some false;
                 Team.domain := None |}
              (set_world (set_policies (λ _, {[ "d1" :=
                 {| Policy.id := "d1";
                    Policy.abilities := {| Policy.read := true |} |} ]}))
                 provider0))
    as (_ & _ & Hevicted & _).
  apply (Hevicted false eq_refl ltac:(discriminate) "d1" draft eq_refl).
Defined.

(** X9: [collections.remove_group] always removes the group membership
    of the event and never throws; it leaves the collection store as it
    was, or removes the collection of the event and then a policy denying
    read was cached for it: with no policy cached, the collection stays. *)
Theorem remove_group_needs_denying_policy (event : GroupMembership.t)
  (p : Provider) :
  let collectionId := GroupMembership.collectionId event in
  let p' := (on_collections_remove_group event p).2 in
  (on_collections_remove_group event p).1 = Normal tt
  ∧ groupMemberships p'
    = delete (GroupMembership.id event) (groupMemberships p)
  ∧ (collections (world p') = collections (world p)
     ∨ collections (world p') = delete collectionId (collections (world p))
       ∧ ∃ policy, policies (world p) !! collectionId = Some policy
                   ∧ Policy.read (Policy.abilities policy) = false)
  ∧ (policies (world p) !! collectionId = None →
     collections (world p') = collections (world p)).
Proof.
  cbv zeta. unfold on_collections_remove_group.
  rewrite bind_modify, bind_gets. unfold Store.get. cbn [world set_groupMemberships].
  destruct (policies (world p) !! GroupMembership.collectionId event)
    as [policy|] eqn:Hpolicy.
  - case_bool_decide as Hread; cbn.
    + split; [done|]. split; [done|]. split; [|done].
      right. split; [done|]. by exists policy.
    + split; [done|]. split; [done|]. split; [by left|done].
  - cbn. split; [done|]. split; [done|]. split; [by left|done].
Qed.

Lemma remove_group_needs_denying_policy_witness :
  collections
    (world (on_collections_remove_group
              {| GroupMembership.id := "gm1"; GroupMembership.groupId := "g1";
                 GroupMembership.collectionId := "c9" |} provider0).2)
  = collections cache.
Proof.
  destruct (remove_group_needs_denying_policy
              {| GroupMembership.id := "gm1"; GroupMembership.groupId := "g1";
                 GroupMembership.collectionId := "c9" |} provider0)
    as (_ & _ & _ & Hkept).
  exact (Hkept eq_refl).
Defined.

(** X10: [fileOperations.update] hands the event to the store's [add]:
    afterwards the store is the old one with the event upserted, so it holds,
    under the identifier of the event, the event itself when the operation
    was not held and otherwise the held operation updated with the fields
    present in the event, and every other operation as before.  The handler
    never throws and never raises an error notice; it appends one success
    notice, titled with the name in the event, exactly when the event says
    the state is complete, the type is import and the acting user is the
    user of the session (two absent user ids count as the same); otherwise
    the notices are left as they were. *)
Theorem import_notice_rule (t : string → string) (event : FileOperation.t)
  (p : Provider) :
  let p' := (on_fileOperations_update t event p).2 in
  (on_fileOperations_update t event p).1 = Normal tt
  ∧ fileOperations p' = Store.add event (fileOperations p)
  ∧ fileOperations p' !! FileOperation.id event
    = Some match fileOperations p !! FileOperation.id event with
           | Some held => updateData event held
           | None => event
           end
  ∧ (∀ j, j ≠ FileOperation.id event →
          fileOperations p' !! j = fileOperations p !! j)
  ∧ toasts (world p')
    = if decide (FileOperation.state event = Some FileOperation.Complete
                 ∧ FileOperation.type event = Some FileOperation.Import
                 ∧ FileOperation.userId event = user p)
      then toasts (world p)
           ++ [ToastSuccess (default "" (FileOperation.name event))
                            (t "Your import completed")]
      else toasts (world p).
Proof.
  cbv zeta. unfold on_fileOperations_update.
  rewrite bind_modify, bind_gets. cbn [user set_fileOperations].
  assert (Store.add event (fileOperations p) !! FileOperation.id event
          = Some match fileOperations p !! FileOperation.id event with
                 | Some held => updateData event held
                 | None => event
                 end) as Hheld.
  { unfold Store.add. cbn. by rewrite lookup_insert_eq. }
  assert (∀ j, j ≠ FileOperation.id event →
            Store.add event (fileOperations p) !! j = fileOperations p !! j)
    as Hothers.
  { intros j Hj. unfold Store.add. cbn. by rewrite lookup_insert_ne. }
  destruct (decide (FileOperation.state event = Some FileOperation.Complete
                    ∧ FileOperation.type event = Some FileOperation.Import
                    ∧ FileOperation.userId event = user p))
    as [(Hstate & Htype & Huser)|Hnot].
  - rewrite !bool_decide_eq_true_2 by done. by cbn.
  - assert (bool_decide (FileOperation.state event
                         = Some FileOperation.Complete)
            && bool_decide (FileOperation.type event
                            = Some FileOperation.Import)
            && bool_decide (FileOperation.userId event = user p) = false)
      as ->; [|by cbn].
    apply not_true_is_false. intros Hall.
    apply andb_prop in Hall as [Hall Huser].
    apply andb_prop in Hall as [Hstate Htype].
    apply Hnot. by repeat split; eapply bool_decide_eq_true_1.
Qed.

Example import_done_notice :
  toasts (world (on_fileOperations_update (λ s, s) import_done provider0).2)
  = [ToastSuccess "notes.zip" "Your import completed"].
Proof. reflexivity. Qed.



(** ** What a collection removal leaves alone *)

Lemma detach_or_delete_id (now : string) (d : Document.t) :
  Document.id (detach_or_delete now d) = Document.id d.
Proof.
  unfold detach_or_delete. by destruct (negb (truthy (Document.publishedAt d))).
Qed.

Lemma detach_loop_policies (now : string) (refs : list string) (w : World) :
  ∃ w',
    for_each refs (λ ref,
      doc ← gets (λ w, documents w !! ref);
      match doc with
      | Some doc =>
          modify (set_documents (alter (detach_or_delete now) ref));;
          modify (set_policies (Store.remove (Document.id doc)))
      | None => mret tt
      end) w = (Normal tt, w')
    ∧ policies w' ⊆ policies w
    ∧ ∀ ref d, ref ∈ refs → documents w !! ref = Some d →
               policies w' !! Document.id d = None.
Proof.
  revert w. induction refs as [|ref refs IH]; intros w.
  { exists w. split; [done|]. split; [done|]. by intros ? ? ?%elem_of_nil. }
  cbn [for_each]. rewrite bind_assoc, bind_gets.
  destruct (documents w !! ref) as [doc|] eqn:Hdoc.
  - rewrite bind_assoc, !bind_modify.
    set (w1 := set_policies (Store.remove (Document.id doc))
                 (set_documents (alter (detach_or_delete now) ref) w)).
    destruct (IH w1) as (w' & Hrun & Hsub & Hgone).
    exists w'. split; [done|]. split.
    { etrans; [exact Hsub|]. cbn. apply delete_subseteq. }
    intros r d [->|Hr]%elem_of_cons Hd.
    + rewrite Hdoc in Hd. injection Hd as <-.
      eapply lookup_weaken_None; [|exact Hsub]. cbn. apply lookup_delete_eq.
    + destruct (decide (r = ref)) as [->|Hne].
      * rewrite <- (detach_or_delete_id now d). apply (Hgone ref); [done|].
        cbn. rewrite lookup_alter, decide_True by done. by rewrite Hd.
      * apply (Hgone r); [done|].
        cbn. by rewrite lookup_alter, decide_False by done.
  - rewrite bind_ret. destruct (IH w) as (w' & Hrun & Hsub & Hgone).
    exists w'. split; [done|]. split; [done|].
    intros r d [->|Hr]%elem_of_cons Hd; [congruence|by eapply Hgone].
Qed.

(** X12: [collections.delete] never throws and never removes a document
    from the store: the same identifiers are cached afterwards.  A
    document that was not in the deleted collection is left exactly as it
    was; for each document that was in it, the cached policy is removed;
    and no policy is added. *)
Theorem collections_delete_spares_others (now : string)
  (event : WebsocketEntityDeletedEvent) (w : World) :
  ∃ w',
    on_collections_delete now event w = (Normal tt, w')
    ∧ dom (documents w') = dom (documents w)
    ∧ (∀ k d, documents w !! k = Some d →
              Document.collectionId d ≠ Some (modelId event) →
              documents w' !! k = Some d)
    ∧ (∀ k d, documents w !! k = Some d →
              Document.collectionId d = Some (modelId event) →
              policies w' !! Document.id d = None)
    ∧ policies w' ⊆ policies w.
Proof.
  destruct (collections_delete_run now event w)
    as (w' & Hrun & Hdocs & _ & _).
  exists w'. split; [done|].
  assert (∀ k, documents w' !! k
               = if decide (k ∈ inCollection (modelId event) (documents w))
                 then detach_or_delete now <$> documents w !! k
                 else documents w !! k) as Hlookup.
  { intros k. rewrite Hdocs.
    apply foldl_alter_lookup, detach_or_delete_idem. }
  split; [|split].
  - apply set_eq. intros k. rewrite !elem_of_dom, Hlookup.
    case_decide; [|done]. by rewrite fmap_is_Some.
  - intros k d Hd Hout. rewrite Hlookup, decide_False; [done|].
    rewrite elem_of_inCollection. intros (d' & Hd' & Hin). congruence.
  - unfold on_collections_delete in Hrun. rewrite bind_gets in Hrun.
    destruct (detach_loop_policies now
                (inCollection (modelId event) (documents w)) w)
      as (w1 & Hloop & Hsub & Hgone).
    erewrite bind_normal in Hrun by exact Hloop.
    rewrite bind_modify in Hrun. injection Hrun as <-. cbn.
    split; [|done].
    intros k d Hd Hin. apply (Hgone k); [|done].
    apply elem_of_inCollection. by exists d.
Qed.

Example collections_delete_spares_on_cache :
  let w := set_documents (insert "d3"
             (Document.set_collectionId (Some "c2") handbook)) cache in
  documents (on_collections_delete "t9" {| modelId := "c1" |} w).2 !! "d3"
  = documents w !! "d3".
Proof. by vm_compute. Qed.

(** ** Resolving and unresolving in sequence *)

(** X13: for a comment that is neither resolved nor a reply and a user
    with a non-empty id, [resolve] followed by [unresolve] succeeds, calls
    [save] twice and leaves the comment with neither resolver field set;
    a second [resolve] right after the first one throws a ValidationError
    and changes nothing more. *)
Theorem resolve_then (user : User.t) (i : Comment.Instance)
  (Hopen : truthy (Comment.resolvedById (Comment.this i)) = false)
  (Hhead : truthy (Comment.parentCommentId (Comment.this i)) = false)
  (Huser : User.id user ≠ "") :
  let c := Comment.this i in
  let resolved := Comment.set_resolved (Some user) (Some (User.id user)) c in
  let cleared := Comment.set_resolved None None c in
  (Comment.resolve user;; Comment.unresolve) i
  = (Normal tt,
     {| Comment.this := cleared;
        Comment.saved := Comment.saved i ++ [resolved; cleared] |})
  ∧ (Comment.resolve user;; Comment.resolve user) i
    = (Throw {| errorClass := ValidationError;
                message := "Comment is already resolved" |},
       {| Comment.this := resolved;
          Comment.saved := Comment.saved i ++ [resolved] |}).
Proof.
  cbv zeta.
  assert (Comment.resolve user i
          = (Normal tt,
             {| Comment.this :=
                  Comment.set_resolved (Some user) (Some (User.id user))
                    (Comment.this i);
                Comment.saved :=
                  Comment.saved i
                  ++ [Comment.set_resolved (Some user) (Some (User.id user))
                        (Comment.this i)] |})) as Hresolve.
  { unfold Comment.resolve. rewrite bind_gets. by rewrite Hopen, Hhead. }
  split.
  - erewrite bind_normal by exact Hresolve.
    unfold Comment.unresolve. rewrite bind_gets. cbn.
    rewrite bool_decide_eq_false_2 by done. cbn [negb].
    unfold Comment.assign, Comment.save. rewrite bind_modify.
    unfold modify. cbn. by rewrite <- app_assoc.
  - erewrite bind_normal by exact Hresolve.
    unfold Comment.resolve. rewrite bind_gets. cbn.
    by rewrite bool_decide_eq_false_2 by done.
Qed.

Lemma resolve_then_witness :
  (Comment.resolve alice;; Comment.resolve alice)
    {| Comment.this := thread; Comment.saved := [] |}
  = (Throw {| errorClass := ValidationError;
              message := "Comment is already resolved" |},
     {| Comment.this := Comment.set_resolved (Some alice) (Some "u1") thread;
        Comment.saved :=
          [Comment.set_resolved (Some alice) (Some "u1") thread] |}).
Proof.
  refine (proj2 (resolve_then alice
    {| Comment.this := thread; Comment.saved := [] |} eq_refl eq_refl _)).
  discriminate.
Defined.

(** ** The entities batch as a whole *)

Lemma quiet_refl w : quiet w w.
Proof. by repeat split. Qed.

Lemma quiet_trans w1 w2 w3 : quiet w1 w2 → quiet w2 w3 → quiet w1 w3.
Proof.
  intros (?&?&?&?&?&?&?&?&?&?) (?&?&?&?&?&?&?&?&?&?).
  repeat split; try congruence. by etrans.
Qed.

Lemma quiet_asked r w : quiet w (asked r w).
Proof. repeat split. cbn. by apply prefix_app_r. Qed.

Lemma grown_refl n event : grown n event event.
Proof.
  split; [done|]. split; [done|]. exists [].
  rewrite app_nil_r. repeat split; [cbn; lia|by apply Forall_nil|done].
Qed.

Lemma grown_trans n m e1 e2 e3 :
  grown n e1 e2 → grown m e2 e3 → grown (n + m) e1 e3.
Proof.
  intros (Hd1 & Hf1 & x1 & Hl1 & Hn1 & Hu1 & Hk1)
         (Hd2 & Hf2 & x2 & Hl2 & Hn2 & Hu2 & Hk2).
  split; [congruence|]. split; [congruence|]. exists (x1 ++ x2).
  split; [by rewrite Hl2, Hl1, app_assoc|].
  split; [rewrite length_app; lia|].
  split; [by apply Forall_app|auto].
Qed.

Lemma grown_with_collection_of document event :
  grown 1 event (with_collection_of document event).
Proof.
  unfold with_collection_of. fold (listed event).
  assert (grown 1 event (set_collectionIds (Some (listed event)) event))
    as Hsame.
  { split; [done|]. split; [done|]. exists []. unfold listed at 1. cbn.
    rewrite app_nil_r. repeat split; [lia|by apply Forall_nil|done]. }
  destruct (Document.collectionId document) as [c|]; [|done].
  destruct (find_id (listed event) (Some c)) as [found|] eqn:Hfind; [done|].
  cbn [present negb andb].
  destruct (truthy (Some c)); [|done].
  split; [done|]. split; [done|].
  exists [{| Descriptor.id := c; Descriptor.updatedAt := None |}].
  unfold listed at 1. cbn [collectionIds set_collectionIds default].
  split; [done|]. split; [done|]. split; [by apply Forall_singleton|].
  intros Hdistinct.
  change (NoDup (Descriptor.id <$> listed event
                 ++ [{| Descriptor.id := c; Descriptor.updatedAt := None |}])).
  rewrite fmap_app. apply NoDup_app.
  split; [done|]. split; [|apply NoDup_singleton].
  intros k Hk [->|[]%elem_of_nil]%elem_of_cons.
  by apply find_id_None in Hfind.
Qed.

Section EntitiesBatch.
Variable server : Server.

Lemma document_iteration_effect desc event w :
  ∃ c w',
    document_iteration server desc event w = (Normal c, w')
    ∧ quiet w w'
    ∧ (length (requests w') ≤ S (length (requests w)))%nat
    ∧ match c with
      | Proceed event' => grown 1 event event'
      | Return => True
      end.
Proof.
  destruct (decide (Document.updatedAt <$> documents w !! Descriptor.id desc
                    = Descriptor.updatedAt desc)) as [Hcurrent|Hstale].
  { exists (Proceed event), w.
    split; [by apply document_skipped_current|].
    split; [apply quiet_refl|]. split; [lia|apply grown_refl]. }
  destruct (documents w !! Descriptor.id desc) as [d|] eqn:Hcached;
    [|destruct (fetchIfMissing event) eqn:Hflag].
  3: { exists (Proceed event), w.
       split; [by apply document_skipped_missing|].
       split; [apply quiet_refl|]. split; [lia|apply grown_refl]. }
  all: rewrite (document_refetched server desc event w)
         by (rewrite ?Hcached; eauto); cbv zeta.
  all: destruct (documentsInfo server (requests w) (Descriptor.id desc))
         as [document|err].
  all: try destruct (instanceof err AuthorizationError
                     || instanceof err NotFoundError).
  all: eexists _, _; (split; [reflexivity|]).
  all: split; [by apply (quiet_asked (DocumentsInfo (Descriptor.id desc)))|].
  all: split; [cbn; rewrite length_app; cbn; lia|].
  all: try done; try apply grown_refl.
  all: case_bool_decide;
         [apply grown_with_collection_of|apply grown_refl].
Qed.


Lemma document_loop_effect ds event w :
  ∃ c w',
    for_of ds (document_iteration server) event w = (Normal c, w')
    ∧ quiet w w'
    ∧ (length (requests w') ≤ length (requests w) + length ds)%nat
    ∧ match c with
      | Proceed event' => grown (length ds) event event'
      | Return => True
      end.
Proof.
  revert event w. induction ds as [|desc ds IH]; intros event w.
  { exists (Proceed event), w. split; [done|]. split; [apply quiet_refl|].
    split; [cbn; lia|apply grown_refl]. }
  destruct (document_iteration_effect desc event w)
    as (c & w1 & Hstep & Hquiet & Hasked & Hevent).
  cbn [for_of]. erewrite bind_normal by exact Hstep.
  destruct c as [event1|].
  - destruct (IH event1 w1) as (c & w' & Hrest & Hquiet' & Hasked' & Hevent').
    exists c, w'. split; [done|]. split; [by eapply quiet_trans|].
    split; [cbn; lia|].
    destruct c as [event'|]; [|done].
    apply (grown_trans 1 (length ds) event event1 event' Hevent Hevent').
  - exists Return, w1. split; [done|]. split; [done|]. split; [cbn; lia|done].
Qed.



(** X15: if the loop over the document descriptors goes through, the
    event it hands to the collection loop has the same document
    descriptors and flag, and a collection list that extends the given one
    by at most one descriptor per document descriptor, each without
    [updatedAt]; collection identifiers that were pairwise distinct are
    still pairwise distinct, so that no collection is refreshed twice
    because of a title change. *)
Theorem synthesized_descriptors (ds : list Descriptor.t)
  (event event' : WebsocketEntitiesEvent) (w w' : World)
  (Hloop : for_of ds (document_iteration server) event w
           = (Normal (Proceed event'), w')) :
  grown (length ds) event event'.
Proof.
  destruct (document_loop_effect ds event w)
    as (c & w1 & Hrun & _ & _ & Hevent).
  rewrite Hloop in Hrun. by injection Hrun as <- <-.
Qed.

(** X16: a batch in which every document descriptor and every collection
    descriptor is settled in the cached state (as recent as the cache; or
    unknown to the cache, for a collection always and for a document when
    [fetchIfMissing] is false; or a collection without loaded documents
    when [fetchIfMissing] is false) changes nothing and asks nothing. *)
Theorem settled_batch_changes_nothing (event : WebsocketEntitiesEvent)
  (w : World)
  (Hdocs : Forall (document_settled (fetchIfMissing event) w)
             (default [] (documentIds event)))
  (Hcols : Forall (collection_settled (fetchIfMissing event) w)
             (listed event)) :
  on_entities server event w = (Normal tt, w).
Proof.
  assert (∀ ds, Forall (document_settled (fetchIfMissing event) w) ds →
            for_of ds (document_iteration server) event w
            = (Normal (Proceed event), w)) as Hdocloop.
  { intros ds Hds. induction Hds as [|desc ds Hdesc _ IH]; [done|].
    assert (document_iteration server desc event w
            = (Normal (Proceed event), w)) as Hstep.
    { destruct Hdesc as [Hcurrent|[Hmissing Hflag]].
      - by apply document_skipped_current.
      - by apply document_skipped_missing. }
    cbn [for_of]. by erewrite bind_normal by exact Hstep. }
  assert (∀ cs, Forall (collection_settled (fetchIfMissing event) w) cs →
            for_of cs (collection_iteration server event) tt w
            = (Normal (Proceed tt), w)) as Hcolloop.
  { intros cs Hcs. induction Hcs as [|desc cs Hdesc _ IH]; [done|].
    assert (collection_iteration server event desc tt w
            = (Normal (Proceed tt), w)) as Hstep.
    { destruct Hdesc as [Hcurrent|[Habsent|[Hunloaded Hflag]]].
      - by apply collection_skipped_current.
      - by apply collection_absent_untouched.
      - by apply collection_skipped_unloaded. }
    cbn [for_of]. by erewrite bind_normal by exact Hstep. }
  unfold on_entities.
  assert (match documentIds event with
          | Some descriptors =>
              for_of descriptors (document_iteration server) event
          | None => mret (Proceed event)
          end w = (Normal (Proceed event), w)) as Hfirst.
  { destruct (documentIds event) as [ds|]; [by apply Hdocloop|done]. }
  erewrite bind_normal by exact Hfirst. cbv beta iota.
  unfold listed in Hcols.
  destruct (collectionIds event) as [cs|]; [|done].
  by erewrite bind_normal by (by apply Hcolloop).
Qed.

End EntitiesBatch.

Lemma synthesized_descriptors_witness :
  grown 1 first_sight
    (set_collectionIds
       (Some [{| Descriptor.id := "c1"; Descriptor.updatedAt := None |}])
       first_sight).
Proof.
  apply (synthesized_descriptors answering [stamp "d1" "t0"] first_sight _
           world0
           (set_documents (Store.add renamed)
              (asked (DocumentsInfo "d1") world0))).
  by vm_compute.
Defined.

Lemma settled_batch_changes_nothing_witness :
  on_entities refusing
    (batch [stamp "d1" "t0"; stamp "d7" "t3"] [stamp "c1" "t0"; stamp "c5" "t2"]
       false) cache
  = (Normal tt, cache).
Proof.
  apply settled_batch_changes_nothing.
  - constructor; [left; reflexivity|].
    constructor; [right; split; reflexivity|]. constructor.
  - constructor; [left; reflexivity|].
    constructor; [right; left; reflexivity|]. constructor.
Defined.

(** ** The connection lifecycle *)

Lemma occurrences_snoc (is_it : Call → bool) (cs : list Call) (c : Call) :
  occurrences is_it (cs ++ [c])
  = occurrences is_it cs + (if is_it c then 1 else 0).
Proof.
  unfold occurrences. rewrite List.filter_app, length_app. cbn.
  destruct (is_it c); cbn; lia.
Qed.

Lemma concat_replicate_snoc {A} (k : nat) (l : list A) :
  concat (replicate (S k) l) = concat (replicate k l) ++ l.
Proof.
  induction k as [|k IH]; [cbn; by rewrite app_nil_r|].
  change (concat (replicate (S (S k)) l))
    with (l ++ concat (replicate (S k) l)).
  rewrite IH at 1. by rewrite app_assoc.
Qed.

(** [teams.update] leaves the connection alone. *)
Lemma teams_update_frame (event : Team.t) (p : Provider) :
  socket (world (on_teams_update event p).2) = socket (world p)
  ∧ calls (on_teams_update event p).2 = calls p
  ∧ transports (on_teams_update event p).2 = transports p.
Proof.
  unfold on_teams_update. rewrite bind_gets.
  destruct (Team.sharing event) as [sharing|]; [|by run].
  case_bool_decide; [|by run].
  rewrite bind_assoc, bind_gets.
  by erewrite bind_normal by apply in_world_run, evict_loop.
Qed.

Section Lifecycle.
Variable fresh : Socket.

Lemma mount_connected_once p :
  connected_once (occurrences is_io (calls p))
    (occurrences is_close (calls p)) (componentDidMount fresh p).2.
Proof.
  unfold connected_once. split; [by eexists|]. exists 0.
  change (calls (componentDidMount fresh p).2)
    with ((calls p ++ [Io [Websocket]]) ++ [AddVisibilityListener]).
  rewrite !occurrences_snoc. cbn. lia.
Qed.

Lemma happen_connected_once io0 close0 h p :
  connected_once io0 close0 p →
  connected_once io0 close0 (happen fresh h p).2.
Proof.
  intros [[s Hs] (k & Hio & Hclose)]. unfold connected_once.
  destruct h as [visible| |down| |err|event]; cbn [happen].
  - unfold checkConnection. rewrite bind_gets, Hs.
    destruct (disconnected s && visible).
    + split; [by eexists|]. exists (S k).
      match goal with
      | |- context [calls ?q] =>
          change (calls q) with ((calls p ++ [SocketClose]) ++ [Io [Websocket]])
      end.
      rewrite !occurrences_snoc. cbn. lia.
    + split; [by exists s|by exists k].
  - unfold on_reconnect_attempt. rewrite bind_gets, Hs, bind_gets. cbn.
    rewrite Hs. split; [by exists s|by exists k].
  - cbn. rewrite Hs. split; [by eexists|by exists k].
  - unfold in_world, on_authenticated, modify. cbn. rewrite Hs.
    split; [by eexists|by exists k].
  - unfold in_world, on_unauthorized. run. cbn. rewrite Hs.
    split; [by eexists|by exists k].
  - destruct (teams_update_frame event p) as (-> & -> & _).
    split; [by exists s|by exists k].
Qed.

Lemma after_all_connected_once (hs : list Happening) (p : Provider) :
  connected_once (occurrences is_io (calls p))
    (occurrences is_close (calls p))
    (after_all fresh hs (componentDidMount fresh p).2).
Proof.
  pose proof (mount_connected_once p) as Hmounted.
  revert Hmounted. generalize (componentDidMount fresh p).2 as q.
  induction hs as [|h hs IH]; intros q Hq; [done|].
  cbn [after_all foldl]. apply IH. by apply happen_connected_once.
Qed.

(** One happening makes no call, or closes the socket and then opens a
    connection. *)
Lemma happen_calls h p :
  calls (happen fresh h p).2 = calls p
  ∨ calls (happen fresh h p).2 = calls p ++ [SocketClose; Io [Websocket]].
Proof.
  destruct h as [visible| |down| |err|event]; cbn [happen].
  - unfold checkConnection. rewrite bind_gets.
    destruct (match socket (world p) with
              | Some s => disconnected s
              | None => false
              end && visible); [right|by left].
    match goal with
    | |- calls ?q = _ =>
        change (calls q) with ((calls p ++ [SocketClose]) ++ [Io [Websocket]])
    end.
    by rewrite <- app_assoc.
  - unfold on_reconnect_attempt. rewrite bind_gets.
    destruct (socket (world p)); [|by left]. rewrite bind_gets. by left.
  - by left.
  - by left.
  - unfold in_world, on_unauthorized. run. by left.
  - left. by destruct (teams_update_frame event p) as (_ & -> & _).
Qed.

Lemma after_all_connection_calls (hs : list Happening) (q : Provider) k base :
  List.filter is_connection_call (calls q)
  = base ++ Io [Websocket]
         :: concat (replicate k [SocketClose; Io [Websocket]]) →
  ∃ k',
    List.filter is_connection_call (calls (after_all fresh hs q))
    = base ++ Io [Websocket]
           :: concat (replicate k' [SocketClose; Io [Websocket]]).
Proof.
  revert q k. induction hs as [|h hs IH]; intros q k Hq; [by exists k|].
  cbn [after_all foldl].
  destruct (happen_calls h q) as [Hsame|Hagain].
  - apply (IH _ k). by rewrite Hsame.
  - apply (IH _ (S k)).
    rewrite Hagain, List.filter_app, Hq, concat_replicate_snoc. cbn.
    by rewrite <- app_assoc.
Qed.

(** X5: once mounted, the provider always holds a socket, whatever
    happens (visibility changes, reconnect attempts, the connection going
    up and down, authentication signals, team updates); the calls that
    open or close a connection, from the mount on, are one [io] followed
    by pairs of a close and an [io]: a connection is opened only right
    after the socket held was closed, so the connections opened are one
    more than the sockets closed. *)
Theorem one_connection_at_a_time (hs : list Happening) (p : Provider) :
  let p' := after_all fresh hs (componentDidMount fresh p).2 in
  is_Some (socket (world p'))
  ∧ (∃ reconnections,
       occurrences is_io (calls p')
         = occurrences is_io (calls p) + 1 + reconnections
       ∧ occurrences is_close (calls p')
         = occurrences is_close (calls p) + reconnections)
  ∧ ∃ reconnections,
      List.filter is_connection_call (calls p')
      = List.filter is_connection_call (calls p)
        ++ Io [Websocket]
           :: concat (replicate reconnections [SocketClose; Io [Websocket]]).
Proof.
  cbv zeta. destruct (after_all_connected_once hs p) as [Hheld Hcounts].
  split; [done|]. split; [done|].
  apply (after_all_connection_calls hs _ 0).
  change (calls (componentDidMount fresh p).2)
    with ((calls p ++ [Io [Websocket]]) ++ [AddVisibilityListener]).
  by rewrite !List.filter_app, app_nil_r.
Qed.

Lemma happen_unauthenticated h p :
  h ≠ AuthenticatedSignal →
  authenticated <$> socket (world p) = Some false →
  authenticated <$> socket (world (happen fresh h p).2) = Some false.
Proof.
  intros Hh Hflag.
  destruct h as [visible| |down| |err|event]; cbn [happen]; [..|done| |].
  5: { by destruct (teams_update_frame event p) as (-> & _). }
  all: destruct (socket (world p)) as [s|] eqn:Hs; [|done].
  - unfold checkConnection. rewrite bind_gets, Hs.
    destruct (disconnected s && visible); cbn; by rewrite ?Hs.
  - unfold on_reconnect_attempt. rewrite bind_gets, Hs, bind_gets.
    cbn. by rewrite Hs.
  - cbn. by rewrite Hs.
  - unfold in_world, on_unauthorized. run. cbn. by rewrite Hs.
Qed.

(** X6: a mounted provider's socket is flagged authenticated only after
    an [authenticated] signal: as long as none has arrived, the flag is
    false, whatever socket the transport library handed out and however
    often the connection was replaced. *)
Theorem authenticated_only_by_signal (hs : list Happening) (p : Provider)
  (Hnone : AuthenticatedSignal ∉ hs) :
  authenticated
    <$> socket (world (after_all fresh hs (componentDidMount fresh p).2))
  = Some false.
Proof.
  assert (authenticated <$> socket (world (componentDidMount fresh p).2)
          = Some false) as Hmounted by done.
  revert Hmounted. generalize (componentDidMount fresh p).2 as q.
  induction hs as [|h hs IH]; intros q Hq; [done|].
  apply not_elem_of_cons in Hnone as [Hh Hnone].
  cbn [after_all foldl]. apply IH; [done|].
  by apply happen_unauthenticated.
Qed.

Lemma happen_transports h p :
  transports (happen fresh h p).2 = transports p
  ∨ transports (happen fresh h p).2 = [Websocket]
  ∨ transports (happen fresh h p).2 = [Websocket; Polling]
    ∧ truthy (team p ≫= Team.domain) = false
    ∧ h = ReconnectAttempt.
Proof.
  destruct h as [visible| |down| |err|event]; cbn [happen].
  - unfold checkConnection. rewrite bind_gets.
    destruct (match socket (world p) with
              | Some s => disconnected s
              | None => false
              end && visible); cbn; [right|]; by left.
  - unfold on_reconnect_attempt. rewrite bind_gets.
    destruct (socket (world p)); [|by left].
    rewrite bind_gets. cbn.
    destruct (truthy (team p ≫= Team.domain)) eqn:Hdomain.
    + right. by left.
    + right. by right.
  - by left.
  - by left.
  - unfold in_world, on_unauthorized. run. by left.
  - left. by destruct (teams_update_frame event p) as (_ & _ & ->).
Qed.

Lemma after_all_snoc (hs : list Happening) (h : Happening) (q : Provider) :
  after_all fresh (hs ++ [h]) q = (happen fresh h (after_all fresh hs q)).2.
Proof. unfold after_all. by rewrite foldl_app. Qed.

(** X7: the socket of a mounted provider is opened with the websocket
    transport only, and the polling fallback is allowed only by a
    reconnect attempt made at a moment when the team of the session (which
    team updates may change) had no domain; a reconnect attempt made while
    the team has a domain leaves websocket as the only transport. *)
Theorem polling_only_without_domain (hs : list Happening) (p : Provider) :
  let mounted := (componentDidMount fresh p).2 in
  (transports (after_all fresh hs mounted) = [Websocket]
   ∨ transports (after_all fresh hs mounted) = [Websocket; Polling]
     ∧ ∃ hs1 hs2,
         hs = hs1 ++ ReconnectAttempt :: hs2
         ∧ truthy (team (after_all fresh hs1 mounted) ≫= Team.domain) = false)
  ∧ (truthy (team (after_all fresh hs mounted) ≫= Team.domain) = true →
     transports (after_all fresh (hs ++ [ReconnectAttempt]) mounted)
     = [Websocket]).
Proof.
  cbv zeta. split.
  - induction hs as [|h hs IH] using rev_ind; [by left|].
    rewrite after_all_snoc.
    destruct (happen_transports h
                (after_all fresh hs (componentDidMount fresh p).2))
      as [-> | [-> | (-> & Hdomain & ->)]].
    + destruct IH as [Hws|(Hpoll & hs1 & hs2 & -> & Hdomain)]; [by left|].
      right. split; [done|]. exists hs1, (hs2 ++ [h]).
      split; [by rewrite <- app_assoc|done].
    + by left.
    + right. split; [done|]. by exists hs, [].
  - intros Hdomain. rewrite after_all_snoc. cbn [happen].
    destruct (after_all_connected_once hs p) as [[s Hs] _].
    unfold on_reconnect_attempt. rewrite bind_gets, Hs, bind_gets. cbn.
    by rewrite Hdomain.
Qed.

End Lifecycle.

Lemma authenticated_only_by_signal_witness :
  authenticated
    <$> socket (world (after_all connecting
          [TransportReports false; TransportReports true; VisibilityChange true;
           UnauthorizedSignal jwt_expired]
          (componentDidMount connecting provider0).2))
  = Some false.
Proof.
  apply (authenticated_only_by_signal connecting).
  apply (bool_decide_unpack _). by vm_compute.
Defined.

Example reconnect_when_visible :
  calls (after_all connecting
           [TransportReports false; AuthenticatedSignal; TransportReports true;
            VisibilityChange false; VisibilityChange true]
           (componentDidMount connecting provider0).2)
  = [Io [Websocket]; AddVisibilityListener; SocketClose; Io [Websocket]].
Proof. reflexivity. Qed.

(** A team that gains a domain after polling was allowed keeps polling
    until the next reconnect attempt. *)
Example domain_gained_after_polling :
  let p := set_team (λ _, Some {| Team.id := "t1"; Team.sharing := Some true;
                                  Team.domain := None |}) provider0 in
  let gains := TeamsUpdate {| Team.id := "t1"; Team.sharing := None;
                              Team.domain := Some "acme.example" |} in
  transports (after_all connecting [ReconnectAttempt; gains]
                (componentDidMount connecting p).2)
  = [Websocket; Polling]
  ∧ transports (after_all connecting [ReconnectAttempt; gains; ReconnectAttempt]
                  (componentDidMount connecting p).2)
    = [Websocket].
Proof. by vm_compute. Qed.

(** ** Unmounting *)

(** X17: whatever happened to a mounted provider, unmounting completes
    normally, leaves the socket flagged unauthenticated, asks it once to
    disconnect and removes the visibility listener; it opens no
    connection, and the socket reference is kept rather than cleared. *)
Theorem unmount_disconnects (fresh : Socket) (hs : list Happening)
  (p : Provider) :
  let before := after_all fresh hs (componentDidMount fresh p).2 in
  let p' := (componentWillUnmount before).2 in
  (componentWillUnmount before).1 = Normal tt
  ∧ authenticated <$> socket (world p') = Some false
  ∧ calls p' = calls before ++ [SocketDisconnect; RemoveVisibilityListener].
Proof.
  cbv zeta.
  destruct (after_all_connected_once fresh hs p) as [[s Hs] _].
  set (before := after_all fresh hs (componentDidMount fresh p).2) in *.
  clearbody before.
  unfold componentWillUnmount. rewrite bind_gets, Hs.
  unfold in_world, call, modify, mbind, M_bind. cbn. rewrite Hs. cbn.
  split; [done|]. split; [done|].
  by rewrite <- app_assoc.
Qed.

(** ** Soft deletion of a document *)

Lemma remove_memberships_loop (stale : list UserMembership.t) (w : World) :
  for_each stale (λ m,
    modify (set_userMemberships (Store.remove (UserMembership.id m)))) w
  = (Normal tt,
     set_userMemberships
       (λ s, foldl (λ s m, delete (UserMembership.id m) s) s stale) w).
Proof.
  revert w. induction stale as [|m stale IH]; intros w.
  { by destruct w. }
  cbn [for_each foldl]. by rewrite bind_modify, IH.
Qed.

Section SoftDelete.
Variable merged : DocumentEvent.t → option Document.t → Document.t.
Variable removeDocument : string → Collection.t → Collection.t.

(** X18: [documents.delete] never throws and never removes the document:
    afterwards a record is cached under the identifier of the event, the
    other documents are as before, and the policy cached for the
    identifier is gone.  When the user memberships are held under their
    own identifiers, the memberships left are exactly those that were
    held for other documents. *)
Theorem documents_delete_keeps_record (event : DocumentEvent.t) (w : World)
  (Hkeyed : well_keyed (userMemberships w)) :
  ∃ w',
    on_documents_delete merged removeDocument event w = (Normal tt, w')
    ∧ is_Some (documents w' !! DocumentEvent.id event)
    ∧ (∀ k, k ≠ DocumentEvent.id event →
            documents w' !! k = documents w !! k)
    ∧ policies w' = delete (DocumentEvent.id event) (policies w)
    ∧ (∀ k m, userMemberships w' !! k = Some m
              ↔ userMemberships w !! k = Some m
                ∧ UserMembership.documentId m ≠ DocumentEvent.id event).
Proof.
  unfold on_documents_delete. rewrite !bind_modify.
  set (w1 := set_policies _ (set_documents _ w)).
  assert (∃ w2,
    match DocumentEvent.collectionId event with
    | Some collectionId =>
        if truthy (Some collectionId)
        then modify (set_collections
               (alter (removeDocument (DocumentEvent.id event)) collectionId))
        else mret tt
    | None => mret tt
    end w1 = (Normal tt, w2)
    ∧ documents w2 = documents w1
    ∧ policies w2 = policies w1
    ∧ userMemberships w2 = userMemberships w) as (w2 & Hrun & Hd & Hp & Hu).
  { destruct (DocumentEvent.collectionId event) as [c|]; [|by exists w1].
    destruct (truthy (Some c)); by eexists. }
  erewrite bind_normal by exact Hrun. rewrite bind_gets.
  rewrite remove_memberships_loop. eexists. split; [reflexivity|].
  cbn [documents policies userMemberships set_userMemberships].
  rewrite Hd, Hp, Hu. subst w1. cbn.
  split; [rewrite lookup_insert_eq; by eexists|].
  split; [by intros k Hk; rewrite lookup_insert_ne|].
  split; [done|].
  intros k m. rewrite foldl_delete_lookup.
  assert (k ∈ UserMembership.id
            <$> filter (λ m, UserMembership.documentId m
                             = DocumentEvent.id event)
                       (orderedData (userMemberships w))
          ↔ ∃ m', userMemberships w !! k = Some m'
                  ∧ UserMembership.documentId m' = DocumentEvent.id event)
    as Hstale.
  { rewrite list_elem_of_fmap. split.
    - intros (m' & -> & Hm'). apply list_elem_of_filter in Hm' as [Hdoc Hm'].
      unfold orderedData in Hm'.
      apply list_elem_of_fmap in Hm' as ([k' m''] & -> & Hheld).
      apply elem_of_map_to_list in Hheld. cbn in *.
      exists m''. split; [|done].
      by rewrite <- (Hkeyed k' m'' Hheld) in Hheld.
    - intros (m' & Hheld & Hdoc). exists m'.
      split; [symmetry; by apply (Hkeyed k m')|].
      apply list_elem_of_filter. split; [done|]. unfold orderedData.
      apply list_elem_of_fmap. exists (k, m'). split; [done|].
      by apply elem_of_map_to_list. }
  case_decide as Hk.
  - apply Hstale in Hk as (m' & Hheld & Hdoc). split; [done|].
    intros [Hm Hother]. congruence.
  - split; [|by intros [? _]]. intros Hm. split; [done|].
    intros Hdoc. apply Hk, Hstale. by exists m.
Qed.

End SoftDelete.

Lemma documents_delete_keeps_record_witness :
  ∃ w',
    on_documents_delete (λ _ held, default draft held)
      (λ _ collection, collection) notes_deleted shared_cache
    = (Normal tt, w')
    ∧ is_Some (documents w' !! "d1")
    ∧ userMemberships w' !! "um1" = None.
Proof.
  destruct (documents_delete_keeps_record (λ _ held, default draft held)
              (λ _ collection, collection) notes_deleted shared_cache)
    as (w' & Hrun & Hheld & _ & _ & Hleft).
  - change (map_Forall (λ k m, UserMembership.id m = k)
              (userMemberships shared_cache)).
    apply (bool_decide_unpack _). by vm_compute.
  - exists w'. split; [exact Hrun|]. split; [exact Hheld|].
    destruct (userMemberships w' !! "um1") as [m|] eqn:Hm; [|done].
    apply Hleft in Hm as [Hm Hother].
    vm_compute in Hm. injection Hm as <-. by destruct Hother.
Defined.

Example documents_delete_on_shared_cache :
  userMemberships
    (on_documents_delete (λ _ held, default draft held)
       (λ _ collection, collection) notes_deleted shared_cache).2
  = {[ "um2" := shared_handbook ]}.
Proof. by vm_compute. Qed.

(** ** The collection descriptors within the handler *)




(** ** Collection removal within the session *)




Example collections_delete_with_group :
  let p' := (in_world (on_collections_delete "t9" {| modelId := "c1" |})
               team_provider).2 in
  memberships (world p') = ∅
  ∧ collections (world p') = ∅
  ∧ GroupMembership.collectionId <$> groupMemberships p' !! "gm1" = Some "c1".
Proof. by vm_compute. Qed.
